(** * npy: a shallow embedding of the NumPy [.npy] / [.npz] codec and its CSV export

    The development follows the Go package [npy]:
    - the array codec ([Write], [Read], [generateHeader], [parseHeader], [readData]),
    - the container ([NPZFile], [Add], [Get], [Keys], [ReadNPZFile]),
    - the CSV projection ([ToCsv]).

    Modelling conventions.
    - A Go [string] and a Go [[]byte] are both byte sequences: [list ascii].
      Names of container entries and the [DType] constants are kept as Rocq
      [string]s (they are only compared and used as map keys).
    - A Go [int] is a [Z] with the 64-bit two's complement wrap-around written
      out ([wrap64]).
    - A Go slice may be [nil]: [option (list A)], [None] being the nil slice.
    - A pointer that may be [nil] is an [option].
    - [io.Reader] and [io.Writer] are in-memory byte buffers (as [bytes.Buffer]
      in the package's tests): the state of a reader is the list of bytes not
      yet consumed, the state of a writer the list of bytes written so far.
    - [float32] and [float64] elements are represented by their IEEE-754 bit
      patterns, which is what [encoding/binary] writes and reads. *)

From Stdlib Require Import ZArith List Ascii String Lia Bool.
From Stdlib Require Import Decimal DecimalString DecimalN DecimalPos.
From stdpp Require Import gmap strings list.
Import ListNotations.

Local Open Scope Z_scope.

(** ** Go primitives *)

Abbreviation bytes := (list ascii).

(** A string literal of the source, as a byte sequence. *)
Definition str (s : string) : bytes := list_ascii_of_string s.

Definition byteZ (b : ascii) : Z := Z.of_N (N_of_ascii b).
Definition Zbyte (z : Z) : ascii := ascii_of_N (Z.to_N (z mod 256)).

(** [len] of a slice; the nil slice has length 0. *)
Definition len {A} (l : list A) : Z := Z.of_nat (length l).
Definition elems {A} (s : option (list A)) : list A :=
  match s with Some l => l | None => [] end.

(** Go [int] on a 64-bit platform. *)
Definition wrap64 (z : Z) : Z := (z + 2 ^ 63) mod 2 ^ 64 - 2 ^ 63.
Definition int_mul (a b : Z) : Z := wrap64 (a * b).
Definition int_add (a b : Z) : Z := wrap64 (a + b).

(** Conversions [uint16(x)] and the like. *)
Definition uint16 (z : Z) : Z := z mod 2 ^ 16.

(** [strings.Repeat] *)
Definition Repeat (c : ascii) (n : Z) : bytes := repeat c (Z.to_nat n).

(** ** Errors and outcomes

    [fmt.Errorf] values are kept by their message; the formatted arguments
    ([%s], [%d], [%q]) are left out of the message.  [Wrapf m e] is
    [fmt.Errorf(m + ": %w", e)]. *)

Inductive error : Type :=
| Errorf (msg : string)
| Wrapf (msg : string) (e : error)
| EOF
| ErrUnexpectedEOF.

Inductive result (A : Type) : Type :=
| Ok (a : A)
| Err (e : error)
| Panic (msg : string).
Arguments Ok {A} a.
Arguments Err {A} e.
Arguments Panic {A} msg.

(** A computation over a state [S] that may fail or panic.  [IO] is the case
    of a byte buffer: the reader's remaining input, or the writer's output so
    far. *)
Definition ST (S A : Type) : Type := S -> result A * S.
Definition IO (A : Type) : Type := ST bytes A.

Definition ret {S A} (a : A) : ST S A := fun s => (Ok a, s).
Definition fail {S A} (e : error) : ST S A := fun s => (Err e, s).
Definition panic {S A} (msg : string) : ST S A := fun s => (Panic msg, s).
Definition bind {S A B} (c : ST S A) (k : A -> ST S B) : ST S B :=
  fun s => match c s with
           | (Ok a, s') => k a s'
           | (Err e, s') => (Err e, s')
           | (Panic m, s') => (Panic m, s')
           end.
(** [if err := c; err != nil { return fmt.Errorf(msg + ": %w", err) }] *)
Definition wrapErr {S A} (msg : string) (c : ST S A) : ST S A :=
  fun s => match c s with
           | (Err e, s') => (Err (Wrapf msg e), s')
           | r => r
           end.
(** A pure step that may fail. *)
Definition lift {S A} (r : result A) : ST S A := fun s => (r, s).

Notation "'do' x <- c ; k" := (bind c (fun x => k))
  (at level 10, x name, c at level 100, k at level 200).
Notation "'do_' c ; k" := (bind c (fun _ => k))
  (at level 10, c at level 100, k at level 200).

(** [io.ReadFull(r, buf)] with [len(buf) = n]: [EOF] when nothing could be
    read, [ErrUnexpectedEOF] when the input ends early. *)
Definition ReadFull (n : nat) : IO bytes := fun s =>
  if (length s <? n)%nat
  then (Err (match s with [] => EOF | _ => ErrUnexpectedEOF end), [])
  else (Ok (firstn n s), skipn n s).

(** [w.Write(p)] on a buffer. *)
Definition w_Write (p : bytes) : IO unit := fun s => (Ok tt, s ++ p).

(** ** Little-endian fixed-width values ([encoding/binary]) *)

Fixpoint le_bytes (w : nat) (z : Z) : bytes :=
  match w with
  | O => []
  | S w' => Zbyte z :: le_bytes w' (z / 256)
  end.

Fixpoint le_val (bs : bytes) : Z :=
  match bs with
  | [] => 0
  | b :: bs' => byteZ b + 256 * le_val bs'
  end.

(** Two's complement reading of a [w]-byte value. *)
Definition to_signed (w : nat) (v : Z) : Z :=
  if v <? 2 ^ (8 * Z.of_nat w - 1) then v else v - 2 ^ (8 * Z.of_nat w).

(** The element types the package supports (the type parameter [T]). *)
Inductive GoType : Type :=
| TBool | TInt8 | TInt16 | TInt32 | TInt64
| TUint8 | TUint16 | TUint32 | TUint64
| TFloat32 | TFloat64.

Definition GoType_eq_dec (a b : GoType) : {a = b} + {a <> b}.
Proof. decide equality. Defined.

(** Values of the element types.  Integers are their numeric value, floats
    their bit pattern. *)
Definition goVal (t : GoType) : Type :=
  match t with TBool => bool | _ => Z end.

Definition width (t : GoType) : nat :=
  match t with
  | TBool | TInt8 | TUint8 => 1
  | TInt16 | TUint16 => 2
  | TInt32 | TUint32 | TFloat32 => 4
  | TInt64 | TUint64 | TFloat64 => 8
  end%nat.

Definition signed (t : GoType) : bool :=
  match t with TInt8 | TInt16 | TInt32 | TInt64 => true | _ => false end.

(** The values a Go variable of the type can hold. *)
Definition inRange (t : GoType) : goVal t -> Prop :=
  match t return goVal t -> Prop with
  | TBool => fun _ => True
  | TInt8 => fun z => - 2 ^ 7 <= z < 2 ^ 7
  | TInt16 => fun z => - 2 ^ 15 <= z < 2 ^ 15
  | TInt32 => fun z => - 2 ^ 31 <= z < 2 ^ 31
  | TInt64 => fun z => - 2 ^ 63 <= z < 2 ^ 63
  | TUint8 => fun z => 0 <= z < 2 ^ 8
  | TUint16 => fun z => 0 <= z < 2 ^ 16
  | TUint32 | TFloat32 => fun z => 0 <= z < 2 ^ 32
  | TUint64 | TFloat64 => fun z => 0 <= z < 2 ^ 64
  end.

(** [binary.Write] of one element of a slice (the fast path of the slice
    types): a bool is the byte 1 or 0, a float its bit pattern. *)
Definition putLE (t : GoType) : goVal t -> bytes :=
  match t return goVal t -> bytes with
  | TBool => fun b => [Zbyte (if b then 1 else 0)]
  | TInt8 => le_bytes 1 | TInt16 => le_bytes 2
  | TInt32 => le_bytes 4 | TInt64 => le_bytes 8
  | TUint8 => le_bytes 1 | TUint16 => le_bytes 2
  | TUint32 => le_bytes 4 | TUint64 => le_bytes 8
  | TFloat32 => le_bytes 4 | TFloat64 => le_bytes 8
  end.

(** A [float32] bit pattern that is a NaN: exponent all ones, mantissa not
    zero.  Bit 22, the top bit of the mantissa, tells a quiet NaN from a
    signalling one. *)
Definition isNaN32 (b : Z) : bool :=
  (Z.land (Z.shiftr b 23) 255 =? 255) && negb (Z.land b (2 ^ 23 - 1) =? 0).

(** The conversion [float32(float64(x))] on bit patterns.  Widening a
    signalling NaN makes it quiet (bit 22 set, sign and the rest of the
    payload kept); every other value, quiet NaNs included, comes back as it
    was. *)
Definition quiet32 (b : Z) : Z := if isNaN32 b then Z.lor b (2 ^ 22) else b.

(** [binary.Read] of one element of the slice behind the pointer [&data]: a
    pointer to a slice has no fast path in [binary.Read], so each element is
    stored by the decoder through [reflect].  A bool is true for any non-zero
    byte; a [float32] goes through [Value.SetFloat], that is through
    [float64] and back; a [float64] is stored as it is. *)
Definition getLE (t : GoType) : bytes -> goVal t :=
  match t return bytes -> goVal t with
  | TBool => fun bs => negb (le_val bs =? 0)
  | TInt8 => fun bs => to_signed 1 (le_val bs)
  | TInt16 => fun bs => to_signed 2 (le_val bs)
  | TInt32 => fun bs => to_signed 4 (le_val bs)
  | TInt64 => fun bs => to_signed 8 (le_val bs)
  | TFloat32 => fun bs => quiet32 (le_val bs)
  | TUint8 | TUint16 | TUint32 | TUint64 | TFloat64 => le_val
  end.

(** [binary.Write(w, binary.LittleEndian, v)] for the fixed-width unsigned
    values of the envelope. *)
Definition binary_Write_uint (w : nat) (v : Z) : IO unit := w_Write (le_bytes w v).

(** [binary.Read(r, binary.LittleEndian, &v)] for them. *)
Definition binary_Read_uint (w : nat) : IO Z :=
  do bs <- ReadFull w ; ret (le_val bs).

(** [binary.Write(w, binary.LittleEndian, data)] for a slice of elements. *)
Definition binary_Write_slice (t : GoType) (data : list (goVal t)) : IO unit :=
  w_Write (concat (map (putLE t) data)).

(** Cut a buffer into [n] elements of [w] bytes. *)
Fixpoint chunks (w n : nat) (bs : bytes) : list bytes :=
  match n with
  | O => []
  | S n' => firstn w bs :: chunks w n' (skipn w bs)
  end.

(** [binary.Read(r, binary.LittleEndian, &data)] for a slice of [n] elements:
    exactly [n * width] bytes are consumed. *)
Definition binary_Read_slice (t : GoType) (n : nat) : IO (list (goVal t)) :=
  do bs <- ReadFull (n * width t) ; ret (map (getLE t) (chunks (width t) n bs)).

(** ** Strings ([strings], [strconv]) *)

Fixpoint bytes_eqb (a b : bytes) : bool :=
  match a, b with
  | [], [] => true
  | x :: a', y :: b' => Ascii.eqb x y && bytes_eqb a' b'
  | _, _ => false
  end.

Definition isDigit (c : ascii) : bool :=
  let n := N_of_ascii c in ((48 <=? n) && (n <=? 57))%N.

(** White space of [strings.TrimSpace] on ASCII input: tab, newline, vertical
    tab, form feed, carriage return, space. *)
Definition isSpace (c : ascii) : bool :=
  let n := N_of_ascii c in (((9 <=? n) && (n <=? 13)) || (n =? 32))%N.

(** [strings.Split(s, sep)] for a one-byte separator: always at least one part. *)
Fixpoint Split (s : bytes) (sep : ascii) : list bytes :=
  match s with
  | [] => [[]]
  | c :: s' =>
      if Ascii.eqb c sep then [] :: Split s' sep
      else match Split s' sep with
           | p :: ps => (c :: p) :: ps
           | [] => [[c]]
           end
  end.

Fixpoint trimLeft (s : bytes) : bytes :=
  match s with
  | c :: s' => if isSpace c then trimLeft s' else s
  | [] => []
  end.

(** [strings.TrimSpace] *)
Definition TrimSpace (s : bytes) : bytes := rev (trimLeft (rev (trimLeft s))).

(** [strconv.Itoa]: decimal digits, with a leading minus sign for negatives. *)
Definition Itoa (z : Z) : bytes := str (NilZero.string_of_int (Z.to_int z)).

(** The value of a non-empty run of decimal digits. *)
Definition digitsVal (ds : bytes) : option Z :=
  match ds with
  | [] => None
  | _ =>
      match NilEmpty.uint_of_string (string_of_list_ascii ds) with
      | None => None
      | Some u => Some (Z.of_N (N.of_uint u))
      end
  end.

(** [strconv.Atoi]: an optional sign, then one or more decimal digits and
    nothing else; the value must fit a 64-bit [int].  [None] is a non-nil
    error. *)
Definition Atoi (s : bytes) : option Z :=
  let '(neg, ds) :=
    match s with
    | c :: t => if Ascii.eqb c "-" then (true, t)
                else if Ascii.eqb c "+" then (false, t) else (false, s)
    | [] => (false, s)
    end in
  match digitsVal ds with
  | None => None
  | Some n =>
      let v := if neg then - n else n in
      if (- 2 ^ 63 <=? v) && (v <? 2 ^ 63) then Some v else None
  end.

(** ** Regular expressions ([regexp])

    The four patterns of [parseHeader] use literals, greedy stars over a
    one-character class, alternation and one capturing group.  Matching is
    the backtracking, leftmost-first search that Go's [regexp] package
    specifies for its Perl syntax: the match that starts earliest, and among
    those the one a backtracking search finds first.  All delimiters of the
    patterns are ASCII, so matching over bytes and over runes agree. *)

Inductive regex : Type :=
| Lit (l : bytes)
| Star (cls : ascii -> bool)
| Seq (r1 r2 : regex)
| Alt (r1 r2 : regex)
| Group (r : regex).

Fixpoint stripPrefix (l s : bytes) : option bytes :=
  match l with
  | [] => Some s
  | c :: l' =>
      match s with
      | d :: s' => if Ascii.eqb c d then stripPrefix l' s' else None
      | [] => None
      end
  end.

(** [star cls acc k s]: greedy [c*]; [acc] is the text taken so far, the
    continuation [k] gets the text taken and the rest of the input.  The
    longest run is tried first. *)
Fixpoint star {R} (cls : ascii -> bool) (acc : bytes)
    (k : bytes -> bytes -> option R) (s : bytes) : option R :=
  match s with
  | c :: s' =>
      if cls c
      then match star cls (acc ++ [c]) k s' with
           | Some r => Some r
           | None => k acc s
           end
      else k acc s
  | [] => k acc []
  end.

(** [run r s cap k]: match [r] at the start of [s]; [k] gets the text
    matched, the rest of the input and the text of the capturing group. *)
Fixpoint run {R} (r : regex) (s : bytes) (cap : option bytes)
    (k : bytes -> bytes -> option bytes -> option R) : option R :=
  match r with
  | Lit l =>
      match stripPrefix l s with
      | Some s' => k l s' cap
      | None => None
      end
  | Star cls => star cls [] (fun m s' => k m s' cap) s
  | Seq r1 r2 =>
      run r1 s cap (fun m1 s1 c1 =>
        run r2 s1 c1 (fun m2 s2 c2 => k (m1 ++ m2) s2 c2))
  | Alt r1 r2 =>
      match run r1 s cap k with
      | Some x => Some x
      | None => run r2 s cap k
      end
  | Group r1 => run r1 s cap (fun m s' _ => k m s' (Some m))
  end.

(** A match anchored at the start of [s]: the text matched and the group. *)
Definition matchAt (r : regex) (s : bytes) : option (bytes * option bytes) :=
  run r s None (fun m _ cap => Some (m, cap)).

(** The leftmost match. *)
Fixpoint find (r : regex) (s : bytes) : option (bytes * option bytes) :=
  match matchAt r s with
  | Some x => Some x
  | None => match s with
            | [] => None
            | _ :: s' => find r s'
            end
  end.

(** [re.FindString(s)]: the text of the leftmost match, or the empty string. *)
Definition FindString (r : regex) (s : bytes) : bytes :=
  match find r s with
  | Some (m, _) => m
  | None => []
  end.

(** [re.FindStringSubmatch(s)]: the match and the text of group 1, or nil. *)
Definition FindStringSubmatch (r : regex) (s : bytes) : list bytes :=
  match find r s with
  | Some (m, cap) => [m; match cap with Some g => g | None => [] end]
  | None => []
  end.

Definition anyButNL (c : ascii) : bool := negb (Ascii.eqb c "010").
(** [\s] of RE2: tab, newline, form feed, carriage return, space. *)
Definition reSpace (c : ascii) : bool :=
  let n := N_of_ascii c in
  ((n =? 9) || (n =? 10) || (n =? 12) || (n =? 13) || (n =? 32))%N.
Definition shapeCls (c : ascii) : bool :=
  isDigit c || Ascii.eqb c "," || reSpace c.
Definition notQuote (c : ascii) : bool := negb (Ascii.eqb c "'").

(** The pattern [{.*}]. *)
Definition dictRe : regex :=
  Seq (Lit (str "{")) (Seq (Star anyButNL) (Lit (str "}"))).
(** The pattern ['shape':\s*\((G)\)] whose group [G] is [[\d,\s]*]. *)
Definition shapeRe : regex :=
  Seq (Lit (str "'shape':")) (Seq (Star reSpace)
    (Seq (Lit (str "(")) (Seq (Group (Star shapeCls)) (Lit (str ")"))))).
(** The pattern ['descr':\s*'(G)'] whose group [G] is [[^']*]. *)
Definition dtypeRe : regex :=
  Seq (Lit (str "'descr':")) (Seq (Star reSpace)
    (Seq (Lit (str "'")) (Seq (Group (Star notQuote)) (Lit (str "'"))))).
(** The pattern ['fortran_order':\s*(True|False)]. *)
Definition fortranRe : regex :=
  Seq (Lit (str "'fortran_order':")) (Seq (Star reSpace)
    (Group (Alt (Lit (str "True")) (Lit (str "False"))))).

(** ** The data model *)

(** [type DType string] and its constants. *)
Definition DType : Type := string.

Definition Bool : DType := "bool".
Definition Int8 : DType := "int8".
Definition Int16 : DType := "int16".
Definition Int32 : DType := "int32".
Definition Int64 : DType := "int64".
Definition Uint8 : DType := "uint8".
Definition Uint16 : DType := "uint16".
Definition Uint32 : DType := "uint32".
Definition Uint64 : DType := "uint64".
Definition Float32 : DType := "float32".
Definition Float64 : DType := "float64".

(** [type Array[T any] struct] *)
Module Array.
Record t (T : Type) : Type := mk {
  Data : option (list T);
  Shape : option (list Z);
  DType : DType;
  Fortran : bool
}.
Arguments mk {T}.
Arguments Data {T}.
Arguments Shape {T}.
Arguments DType {T}.
Arguments Fortran {T}.
End Array.

(** [type header struct] *)
Module header.
Record t : Type := mk {
  Shape : option (list Z);
  DType : DType;
  Fortran : bool
}.
End header.

(** ** Header codec *)

(** The [switch arr.DType] of [generateHeader]; the default is the float64
    token. *)
Definition dtypeStr_of (d : DType) : bytes :=
  if String.eqb d Bool then str "|b1"
  else if String.eqb d Int8 then str "|i1"
  else if String.eqb d Int16 then str "<i2"
  else if String.eqb d Int32 then str "<i4"
  else if String.eqb d Int64 then str "<i8"
  else if String.eqb d Uint8 then str "|u1"
  else if String.eqb d Uint16 then str "<u2"
  else if String.eqb d Uint32 then str "<u4"
  else if String.eqb d Uint64 then str "<u8"
  else if String.eqb d Float32 then str "<f4"
  else if String.eqb d Float64 then str "<f8"
  else str "<f8".

(** The loop [for i, dim := range arr.Shape] of [generateHeader], from index
    [i] on, appending to [shapeStr]. *)
Fixpoint formatDims (i : nat) (dims : list Z) (shapeStr : bytes) : bytes :=
  match dims with
  | [] => shapeStr
  | dim :: rest =>
      let shapeStr := if (0 <? i)%nat then shapeStr ++ str ", " else shapeStr in
      formatDims (S i) rest (shapeStr ++ Itoa dim)
  end.

Definition generateHeader {T} (arr : Array.t T) : bytes :=
  let dtypeStr := dtypeStr_of (Array.DType arr) in
  let shapeStr := formatDims 0 (elems (Array.Shape arr)) (str "(") in
  let shapeStr :=
    if (length (elems (Array.Shape arr)) =? 0)%nat then shapeStr ++ str ","
    else if (length (elems (Array.Shape arr)) =? 1)%nat then shapeStr ++ str ","
    else shapeStr in
  let shapeStr := shapeStr ++ str ")" in
  let fortranStr := if Array.Fortran arr then str "True" else str "False" in
  str "{'descr': '" ++ dtypeStr ++ str "', 'fortran_order': " ++ fortranStr
    ++ str ", 'shape': " ++ shapeStr ++ str ", }".

(** The loop [for _, part := range shapeParts] of [parseHeader]. *)
Fixpoint parseDims (shapeParts : list bytes) (shape : list Z) : result (list Z) :=
  match shapeParts with
  | [] => Ok shape
  | part :: rest =>
      let part := TrimSpace part in
      if bytes_eqb part [] then parseDims rest shape
      else match Atoi part with
           | None => Err (Errorf "invalid shape dimension")
           | Some dim => parseDims rest (shape ++ [dim])
           end
  end.

(** The [switch typeChar] of [parseHeader]. *)
Definition typeFor (typeChar : bytes) : option DType :=
  if bytes_eqb typeChar (str "b1") then Some Bool
  else if bytes_eqb typeChar (str "i1") then Some Int8
  else if bytes_eqb typeChar (str "i2") then Some Int16
  else if bytes_eqb typeChar (str "i4") then Some Int32
  else if bytes_eqb typeChar (str "i8") then Some Int64
  else if bytes_eqb typeChar (str "u1") then Some Uint8
  else if bytes_eqb typeChar (str "u2") then Some Uint16
  else if bytes_eqb typeChar (str "u4") then Some Uint32
  else if bytes_eqb typeChar (str "u8") then Some Uint64
  else if bytes_eqb typeChar (str "f4") then Some Float32
  else if bytes_eqb typeChar (str "f8") then Some Float64
  else None.

Definition parseHeader (headerStr : bytes) : result header.t :=
  let dictStr := FindString dictRe headerStr in
  if bytes_eqb dictStr [] then Err (Errorf "invalid header format") else
  match nth_error (FindStringSubmatch shapeRe dictStr) 1 with
  | None => Err (Errorf "shape not found in header")
  | Some shapeStr =>
  match parseDims (Split shapeStr ",") [] with
  | Err e => Err e
  | Panic m => Panic m
  | Ok shape =>
  match nth_error (FindStringSubmatch dtypeRe dictStr) 1 with
  | None => Err (Errorf "dtype not found in header")
  | Some dtypeStr =>
  if 2 <=? len dtypeStr then
    match typeFor (skipn 1 dtypeStr) with
    | None => Err (Errorf "unsupported dtype")
    | Some dtype =>
    match nth_error (FindStringSubmatch fortranRe dictStr) 1 with
    | None => Err (Errorf "fortran_order not found in header")
    | Some fortranMatch =>
        Ok (header.mk (Some shape) dtype (bytes_eqb fortranMatch (str "True")))
    end
    end
  else Err (Errorf "invalid dtype format")
  end end end.

(** ** Array codec *)

Definition magic : bytes := "147"%char :: str "NUMPY".

(** The loop [for _, dim := range shape { totalElements *= dim }]. *)
Definition totalElements (shape : list Z) : Z := fold_left int_mul shape 1.

(** [readData]: [make([]T, totalElements)] panics on a negative length, the
    run-time panic that the language defines for [make].  The allocator's
    limit on the byte size of a slice belongs to the platform and is left out:
    a count that is not negative is taken to be allocated. *)
Definition readData (t : GoType) (hdr : header.t) : IO (list (goVal t)) :=
  let totalElements := totalElements (elems (header.Shape hdr)) in
  if totalElements <? 0 then panic "makeslice: len out of range" else
  wrapErr "failed to read data"
    (binary_Read_slice t (Z.to_nat totalElements)).

(** The envelope after the magic string: version and header length, as read
    by both [Read] and the first pass of [ReadNPZFile]; the messages of the
    latter end in [sfx] (" from %s", " in %s").  The result is [headerLen], a
    [uint16]. *)
Definition readHeaderLen (from in_ : string) : IO Z :=
  do major <- wrapErr ("failed to read major version" ++ from) (binary_Read_uint 1) ;
  do minor <- wrapErr ("failed to read minor version" ++ from) (binary_Read_uint 1) ;
  if major =? 1 then
    wrapErr ("failed to read header length" ++ from) (binary_Read_uint 2)
  else if major =? 2 then
    do headerLen32 <- wrapErr ("failed to read header length" ++ from) (binary_Read_uint 4) ;
    ret (uint16 headerLen32)
  else fail (Errorf ("unsupported version" ++ in_)).

Definition Read (t : GoType) : IO (Array.t (goVal t)) :=
  do magic' <- wrapErr "failed to read magic string" (ReadFull 6) ;
  if negb (bytes_eqb magic' magic) then fail (Errorf "invalid magic string") else
  do headerLen <- readHeaderLen "" "" ;
  do headerBytes <- wrapErr "failed to read header" (ReadFull (Z.to_nat headerLen)) ;
  do hdr <- wrapErr "failed to parse header" (lift (parseHeader headerBytes)) ;
  do data <- wrapErr "failed to read data" (readData t hdr) ;
  ret (Array.mk (Some data) (header.Shape hdr) (header.DType hdr) (header.Fortran hdr)).

(** The padding of [Write]: [paddingLen] and the padded header. *)
Definition paddingLen (headerStr : bytes) : Z :=
  let paddingLen := 16 - Z.rem (10 + len headerStr) 16 in
  if paddingLen <? 1 then paddingLen + 16 else paddingLen.

Definition padHeader (headerStr : bytes) : bytes :=
  headerStr ++ Repeat " " (paddingLen headerStr - 1) ++ str "
".

Definition Write (t : GoType) (arr : Array.t (goVal t)) : IO unit :=
  match Array.Data arr with
  | None => fail (Errorf "array data is nil")
  | Some data =>
  match Array.Shape arr with
  | None => fail (Errorf "array shape is nil")
  | Some shape =>
  if String.eqb (Array.DType arr) "" then fail (Errorf "array dtype is empty") else
  let totalElements := totalElements shape in
  if negb (len data =? totalElements)
  then fail (Errorf "data length does not match shape dimensions") else
  do_ w_Write magic ;
  do_ binary_Write_uint 1 1 ;
  do_ binary_Write_uint 1 0 ;
  let headerStr := padHeader (generateHeader arr) in
  do_ binary_Write_uint 2 (uint16 (len headerStr)) ;
  do_ w_Write headerStr ;
  binary_Write_slice t data
  end end.

(** ** Container codec *)

(** A value of the map [arrays]: a pointer to an [Array[T]] behind [interface{}].  The
    first component is the dynamic type, the pointer may be nil. *)
Inductive anyArray : Type :=
| AnyArray (t : GoType) (p : option (Array.t (goVal t))).

(** [type NPZFile struct] *)
Record NPZFile : Type := mkNPZ { arrays : gmap string anyArray }.

Definition NewNPZFile : NPZFile := mkNPZ ∅.

Definition Add (t : GoType) (npz : NPZFile) (name : string)
    (arr : option (Array.t (goVal t))) : NPZFile :=
  mkNPZ (<[name := AnyArray t arr]> (arrays npz)).

(** [Get]: the lookup, then the type assertion of [val] to a pointer to
    [Array[T]]. *)
Definition Get (t : GoType) (npz : NPZFile) (name : string)
    : option (Array.t (goVal t)) * bool :=
  match arrays npz !! name with
  | None => (None, false)
  | Some (AnyArray u p) =>
      match GoType_eq_dec u t with
      | left e => (eq_rect u (fun x => option (Array.t (goVal x))) p t e, true)
      | right _ => (None, false)
      end
  end.

(** [strings.HasSuffix] and [strings.TrimSuffix] *)
Definition HasSuffix (s suffix : string) : bool :=
  match stripPrefix (rev (str suffix)) (rev (str s)) with
  | Some _ => true
  | None => false
  end.
Definition TrimSuffix (s suffix : string) : string :=
  match stripPrefix (rev (str suffix)) (rev (str s)) with
  | Some r => string_of_list_ascii (rev r)
  | None => s
  end.

(** A member of the zip archive: [f.Name], [f.FileInfo().IsDir()] and the
    bytes that a reader returned by [f.Open()] delivers. *)
Record zipFile : Type := mkZip { Name : string; IsDir : bool; content : bytes }.

(** The first pass of [ReadNPZFile] over a member: the envelope and the
    header, to find the dtype. *)
Definition peekHeader : IO header.t :=
  do magic' <- wrapErr "failed to read magic string from" (ReadFull 6) ;
  do headerLen <- readHeaderLen " from" " in" ;
  do headerBytes <- wrapErr "failed to read header from" (ReadFull (Z.to_nat headerLen)) ;
  wrapErr "failed to parse header from" (lift (parseHeader headerBytes)).

(** One case of the [switch hdr.DType]: [Read[T](rc)] and [array = arr]. *)
Definition readAs (t : GoType) (msg : string) (rc : bytes) : result anyArray :=
  match fst (Read t rc) with
  | Ok arr => Ok (AnyArray t (Some arr))
  | Err e => Err (Wrapf msg e)
  | Panic m => Panic m
  end.

(** The body of the loop of [ReadNPZFile] for a member that is not a
    directory: both passes, each on a fresh reader of the member. *)
Definition readMember (f : zipFile) : result anyArray :=
  match fst (peekHeader (content f)) with
  | Err e => Err e
  | Panic m => Panic m
  | Ok hdr =>
      let d := header.DType hdr in
      let rc := content f in
      if String.eqb d Bool then readAs TBool "failed to read bool array from" rc
      else if String.eqb d Int8 then readAs TInt8 "failed to read int8 array from" rc
      else if String.eqb d Int16 then readAs TInt16 "failed to read int16 array from" rc
      else if String.eqb d Int32 then readAs TInt32 "failed to read int32 array from" rc
      else if String.eqb d Int64 then readAs TInt64 "failed to read int64 array from" rc
      else if String.eqb d Uint8 then readAs TUint8 "failed to read uint8 array from" rc
      else if String.eqb d Uint16 then readAs TUint16 "failed to read uint16 array from" rc
      else if String.eqb d Uint32 then readAs TUint32 "failed to read uint32 array from" rc
      else if String.eqb d Uint64 then readAs TUint64 "failed to read uint64 array from" rc
      else if String.eqb d Float32 then readAs TFloat32 "failed to read float32 array from" rc
      else if String.eqb d Float64 then readAs TFloat64 "failed to read float64 array from" rc
      else Err (Errorf "unsupported dtype in")
  end.

(** The loop [for _, f := range zipReader.File]. *)
Fixpoint readMembers (files : list zipFile) (npz : NPZFile) : result NPZFile :=
  match files with
  | [] => Ok npz
  | f :: rest =>
      if IsDir f then readMembers rest npz
      else
        let name := TrimSuffix (Name f) ".npy" in
        match readMember f with
        | Ok array => readMembers rest (mkNPZ (<[name := array]> (arrays npz)))
        | Err e => Err e
        | Panic m => Panic m
        end
  end.

(** [ReadNPZFile], given the members that [zip.OpenReader(path)] lists. *)
Definition ReadNPZFile (path : string) (files : list zipFile) : result NPZFile :=
  if negb (HasSuffix path ".npz") then Err (Errorf "expected .npz file extension")
  else readMembers files NewNPZFile.

(** ** CSV export *)

Section Csv.
Context {T : Type}.
(** [fmt.Sprintf("%v", val)] for the element type. *)
Variable Sprint : T -> bytes.

(** [arr.Data[idx]]: an index out of range panics. *)
Definition index (data : list T) (idx : Z) : result T :=
  if (idx <? 0) || (len data <=? idx) then Panic "index out of range"
  else match nth_error data (Z.to_nat idx) with
       | Some v => Ok v
       | None => Panic "index out of range"
       end.

(** The inner loop [for c := 0; c < cols; c++] from column [c] on, with [n]
    iterations left: the fields [record[c..]]. *)
Fixpoint rowFields (arr : Array.t T) (rows cols r : Z) (n : nat) (c : Z)
    : result (list bytes) :=
  match n with
  | O => Ok []
  | S n' =>
      let idx := if Array.Fortran arr
                 then int_add (int_mul c rows) r
                 else int_add (int_mul r cols) c in
      match index (elems (Array.Data arr)) idx with
      | Ok v =>
          match rowFields arr rows cols r n' (c + 1) with
          | Ok fields => Ok (Sprint v :: fields)
          | other => other
          end
      | Err e => Err e
      | Panic m => Panic m
      end
  end.

(** The outer loop [for r := 0; r < rows; r++] from row [r] on, with [n]
    iterations left.  The state is the list of records given to the CSV
    writer.  [make([]string, cols)] panics on a negative length. *)
Fixpoint writeRows (arr : Array.t T) (rows cols : Z) (n : nat) (r : Z)
    : ST (list (list bytes)) unit :=
  match n with
  | O => ret tt
  | S n' =>
      if cols <? 0 then panic "makeslice: len out of range" else
      do record <- lift (rowFields arr rows cols r (Z.to_nat cols) 0) ;
      do_ (fun w => (Ok tt, w ++ [record])) ;
      writeRows arr rows cols n' (r + 1)
  end.

(** [ToCsv], once the file is created: the records written. *)
Definition ToCsv (arr : Array.t T) : ST (list (list bytes)) unit :=
  let shape := elems (Array.Shape arr) in
  let dimensions := len shape in
  if (dimensions =? 0) || ((dimensions =? 1) && (nth 0 shape 0 =? 0)) then ret tt
  else if dimensions =? 1 then
    let record := map Sprint (elems (Array.Data arr)) in
    fun w => (Ok tt, w ++ [record])
  else if dimensions =? 2 then
    let rows := nth 0 shape 0 in
    let cols := nth 1 shape 0 in
    writeRows arr rows cols (Z.to_nat rows) 0
  else fail (Errorf "arrays with more than 2 dimensions are not supported for Csv export").
End Csv.

(** ** The rest of the container: [Keys] and [WriteNPZFile] *)

(** [Keys]: the names of the entries.  Go leaves the order of a map
    iteration unspecified; the model takes the order of [map_to_list]. *)
Definition Keys (npz : NPZFile) : list string := (map_to_list (arrays npz)).*1.

(** The message of the case of the type switch of [WriteNPZFile] for an
    element type. *)
Definition writeMsg (t : GoType) : string :=
  match t with
  | TBool => "failed to write bool array to"
  | TInt8 => "failed to write int8 array to"
  | TInt16 => "failed to write int16 array to"
  | TInt32 => "failed to write int32 array to"
  | TInt64 => "failed to write int64 array to"
  | TUint8 => "failed to write uint8 array to"
  | TUint16 => "failed to write uint16 array to"
  | TUint32 => "failed to write uint32 array to"
  | TUint64 => "failed to write uint64 array to"
  | TFloat32 => "failed to write float32 array to"
  | TFloat64 => "failed to write float64 array to"
  end.

(** One case of the [switch arr := array.(type)] of [WriteNPZFile]:
    [Write(w, arr)] on the writer of the entry just created.  [Write] reads
    [arr.Data] first, which panics on a nil pointer. *)
Definition writeMember (array : anyArray) : result unit * bytes :=
  match array with
  | AnyArray t None => (Panic "invalid memory address or nil pointer dereference", [])
  | AnyArray t (Some arr) =>
      match Write t arr [] with
      | (Err e, w) => (Err (Wrapf (writeMsg t) e), w)
      | r => r
      end
  end.

(** The loop [for name, array := range npz.arrays] of [WriteNPZFile] over the
    entries in the order of the iteration; [zip] holds the members created so
    far.  On an error the function returns, and the deferred [Close] leaves
    the members created so far in the archive. *)
Fixpoint writeMembers (entries : list (string * anyArray)) (zip : list zipFile)
    : result unit * list zipFile :=
  match entries with
  | [] => (Ok tt, zip)
  | (name, array) :: rest =>
      let name := if HasSuffix name ".npy" then name else (name ++ ".npy")%string in
      match writeMember array with
      | (Ok _, w) => writeMembers rest (zip ++ [mkZip name false w])
      | (Err e, w) => (Err e, zip ++ [mkZip name false w])
      | (Panic m, w) => (Panic m, zip ++ [mkZip name false w])
      end
  end.

(** [WriteNPZFile]: the path of the archive that is created and its members. *)
Definition WriteNPZFile (path : string) (npz : NPZFile)
    : result unit * (string * list zipFile) :=
  let path := if HasSuffix path ".npz" then path else (path ++ ".npz")%string in
  let (r, zip) := writeMembers (map_to_list (arrays npz)) [] in
  (r, (path, zip)).

(** ** Files: [ReadFile] and [WriteFile]

    The file system is a map from paths to contents in which every path can
    be created: [os.Create] creates or truncates the file and does not fail,
    [os.Open] fails on a path that is not in the map. *)

Definition ReadFile (t : GoType) (path : string)
    : ST (gmap string bytes) (Array.t (goVal t)) := fun fs =>
  if negb (HasSuffix path ".npy")
  then (Err (Errorf "expected .npy file extension"), fs)
  else match fs !! path with
       | None => (Err (Wrapf "failed to open file" (Errorf "no such file or directory")), fs)
       | Some f => (fst (Read t f), fs)
       end.

Definition WriteFile (t : GoType) (path : string) (arr : Array.t (goVal t))
    : ST (gmap string bytes) unit := fun fs =>
  let path := if HasSuffix path ".npy" then path else (path ++ ".npy")%string in
  let (r, f) := Write t arr [] in
  (r, <[path := f]> fs).

(** ** Notions used to state the properties *)

(** The product of the dimensions, as a mathematical integer. *)
Definition product (shape : list Z) : Z := fold_right Z.mul 1 shape.

(** The bytes that a successful [Write] appends to the writer. *)
Definition stream (t : GoType) (arr : Array.t (goVal t)) : bytes :=
  let headerStr := padHeader (generateHeader arr) in
  magic ++ le_bytes 1 1 ++ le_bytes 1 0
    ++ le_bytes 2 (uint16 (len headerStr)) ++ headerStr
    ++ concat (map (putLE t) (elems (Array.Data arr))).

(** The dtype constant of an element type: the pairing of the
    [switch hdr.DType] of [ReadNPZFile]. *)
Definition dtypeName (t : GoType) : DType :=
  match t with
  | TBool => Bool | TInt8 => Int8 | TInt16 => Int16 | TInt32 => Int32
  | TInt64 => Int64 | TUint8 => Uint8 | TUint16 => Uint16 | TUint32 => Uint32
  | TUint64 => Uint64 | TFloat32 => Float32 | TFloat64 => Float64
  end.

(** The dtype constants. *)
Definition dtypes : list DType :=
  [Bool; Int8; Int16; Int32; Int64; Uint8; Uint16; Uint32; Uint64; Float32; Float64].

(** The dtype tokens of the format. *)
Definition tokens : list bytes :=
  [str "|b1"; str "|i1"; str "<i2"; str "<i4"; str "<i8";
   str "|u1"; str "<u2"; str "<u4"; str "<u8"; str "<f4"; str "<f8"].

(** The text between the parentheses of the shape tuple that
    [generateHeader] writes: the dimensions separated by ", ", and a trailing
    comma for fewer than two dimensions. *)
Definition tailText (dims : list Z) : bytes :=
  concat (map (fun d => str ", " ++ Itoa d) dims).
Definition dimsText (shape : list Z) : bytes :=
  match shape with
  | [] => []
  | d :: dims => Itoa d ++ tailText dims
  end.
Definition shapeInner (shape : list Z) : bytes :=
  dimsText shape ++ (if (length shape <=? 1)%nat then str "," else []).

(** The text of the header for a dtype token, a layout flag and the inner
    text of the shape tuple: the format string of [generateHeader]. *)
Definition headerText (tok : bytes) (fortran : bool) (inner : bytes) : bytes :=
  str "{'descr': '" ++ tok ++ str "', 'fortran_order': "
    ++ (if fortran then str "True" else str "False")
    ++ str ", 'shape': (" ++ inner ++ str "), }".

(** A reader whose outcome, unless it is an error, does not depend on the
    bytes that follow the ones it consumed. *)
Definition stable {A} (c : IO A) : Prop :=
  forall s x,
    match c s with
    | (Ok a, r) => c (s ++ x) = (Ok a, r ++ x)
    | (Panic m, r) => c (s ++ x) = (Panic m, r ++ x)
    | (Err _, _) => True
    end.

(** An entry of a container whose array is present and agrees with the
    element type it is stored at: non-nil data with as many elements as the
    shape declares, a shape of non-negative dimensions, and the dtype of the
    element type. *)
Definition wellTyped (a : anyArray) : Prop :=
  match a with
  | AnyArray t p =>
      exists arr data shape,
        p = Some arr /\ Array.Data arr = Some data /\
        Array.Shape arr = Some shape /\ Array.DType arr = dtypeName t /\
        Forall (fun d => 0 <= d) shape /\ len data = totalElements shape
  end.

(** An element that is a signalling NaN of type [float32]. *)
Definition signalling (t : GoType) : goVal t -> bool :=
  match t return goVal t -> bool with
  | TFloat32 => fun b => isNaN32 b && negb (Z.testbit b 22)
  | _ => fun _ => false
  end.

(** An entry that [WriteNPZFile] writes and [ReadNPZFile] reads back: a
    well-formed array whose header fits the envelope, stored at the element
    type of its dtype. *)
Definition encodable (a : anyArray) : Prop :=
  match a with
  | AnyArray t p =>
      exists arr data shape,
        p = Some arr /\ Array.Data arr = Some data /\
        Array.Shape arr = Some shape /\ Array.DType arr = dtypeName t /\
        Forall (fun d => 0 <= d < 2 ^ 63) shape /\
        len data = product shape /\ len data < 2 ^ 63 /\
        Forall (inRange t) data /\
        len (padHeader (generateHeader arr)) < 2 ^ 16
  end.

(** An entry none of whose elements is a signalling NaN. *)
Definition quietData (a : anyArray) : Prop :=
  match a with
  | AnyArray t (Some arr) =>
      Forall (fun v => signalling t v = false) (elems (Array.Data arr))
  | AnyArray t None => True
  end.

(** An entry with each element written and read back at its element type. *)
Definition readBack (a : anyArray) : anyArray :=
  match a with
  | AnyArray t (Some arr) =>
      AnyArray t (Some (Array.mk
        (option_map (map (fun v => getLE t (putLE t v))) (Array.Data arr))
        (Array.Shape arr) (Array.DType arr) (Array.Fortran arr)))
  | AnyArray t None => AnyArray t None
  end.

(** The member of the archive that [WriteNPZFile] creates for an entry, and
    the name under which [ReadNPZFile] stores what it reads from it. *)
Definition memberName (name : string) : string :=
  if HasSuffix name ".npy" then name else (name ++ ".npy")%string.
Definition memberOf (e : string * anyArray) : zipFile :=
  mkZip (memberName (fst e)) false
    (match snd e with
     | AnyArray t (Some arr) => stream t arr
     | AnyArray t None => []
     end).

Definition isErr {A} (r : result A) : Prop := exists e, r = Err e.

(** ** Sample values (from the package's tests) *)

(** The 2x3 matrix of [TestToCsv_2D] and its column-major twin of
    [TestToCsv_FortranOrder]. *)
Definition matrixC : Array.t Z :=
  Array.mk (Some [1; 2; 3; 4; 5; 6]) (Some [2; 3]) Int32 false.
Definition matrixF : Array.t Z :=
  Array.mk (Some [1; 4; 2; 5; 3; 6]) (Some [2; 3]) Int32 true.
Definition vector5 : Array.t Z :=
  Array.mk (Some [5; 6; 7; 8; 9]) (Some [5]) Int32 false.
Definition cube : Array.t Z :=
  Array.mk (Some [1; 2; 3; 4; 5; 6; 7; 8]) (Some [2; 2; 2]) Int32 false.
Definition emptyVec : Array.t Z :=
  Array.mk (Some []) (Some [0]) Int32 false.

(** An empty array whose data slice is nil. *)
Definition nilData : Array.t (goVal TFloat64) :=
  Array.mk None (Some [0]) Float64 false.

(** A [float32] array of one signalling NaN (bit pattern 0x7fa00001), the
    same pattern as an [int32], and the quiet NaN 0x7fe00001. *)
Definition snan32 : Z := 2141192193.
Definition qnan32 : Z := 2145386497.
Definition snanInts : Array.t (goVal TInt32) :=
  Array.mk (Some [snan32]) (Some [1]) Int32 false.



(** The container of [TestNPZFile], with float64 values as bit patterns. *)
Definition array1 : Array.t (goVal TFloat64) :=
  Array.mk (Some [4607182418800017408; 4611686018427387904;
                  4613937818241073152; 4616189618054758400])
           (Some [2; 2]) Float64 false.
Definition array2 : Array.t (goVal TInt32) :=
  Array.mk (Some [5; 6; 7; 8; 9]) (Some [5]) Int32 false.
Definition npzDemo : NPZFile :=
  Add TInt32 (Add TFloat64 NewNPZFile "array1" (Some array1)) "array2" (Some array2).

(** A member of an archive: the stream of [array2] with its magic string
    overwritten. *)
Definition badMagic : zipFile :=
  mkZip "array2.npy" false (str "NOTNPY" ++ skipn 6 (stream TInt32 array2)).

(** * Properties *)

(** ** Arithmetic of Go integers *)

Lemma wrap64_id (z : Z) : - 2 ^ 63 <= z < 2 ^ 63 -> wrap64 z = z.
Proof.
  intros H. unfold wrap64.
  rewrite Z.mod_small by lia. lia.
Qed.

Lemma wrap64_range (z : Z) : - 2 ^ 63 <= wrap64 z < 2 ^ 63.
Proof.
  unfold wrap64.
  pose proof (Z.mod_pos_bound (z + 2 ^ 63) (2 ^ 64) ltac:(lia)). lia.
Qed.

Lemma wrap64_mul_l (a b : Z) : wrap64 (wrap64 a * b) = wrap64 (a * b).
Proof.
  unfold wrap64. f_equal.
  replace ((((a + 2 ^ 63) mod 2 ^ 64 - 2 ^ 63) * b) + 2 ^ 63)
    with (((a + 2 ^ 63) mod 2 ^ 64) * b + (2 ^ 63 - 2 ^ 63 * b)) by ring.
  rewrite <- Zplus_mod_idemp_l, Zmult_mod_idemp_l, Zplus_mod_idemp_l.
  f_equal. ring.
Qed.

Lemma len_app {A} (a b : list A) : len (a ++ b) = len a + len b.
Proof. unfold len. rewrite length_app. lia. Qed.

Lemma len_nonneg {A} (a : list A) : 0 <= len a.
Proof. unfold len. lia. Qed.

(** ** Container: [Get] *)

(** C8. [Get] instantiated at [t] reports not-found when the name is absent
    and when the entry stored under the name has another element type; when it
    reports found, the array it returns is the stored one, at its own type.
    There is no third outcome: the second component is the only signal. *)
Theorem Get_absent_or_other_type (npz : NPZFile) (name : string) (t : GoType) :
  (arrays npz !! name = None -> Get t npz name = (None, false)) /\
  (forall u p, arrays npz !! name = Some (AnyArray u p) -> u <> t ->
     Get t npz name = (None, false)) /\
  (forall p, Get t npz name = (p, true) ->
     arrays npz !! name = Some (AnyArray t p)).
Proof.
  unfold Get. split; [|split].
  - intros ->. reflexivity.
  - intros u p -> Hne.
    destruct (GoType_eq_dec u t) as [e|_]; [contradiction|reflexivity].
  - intros p. destruct (arrays npz !! name) as [[u q]|]; [|discriminate].
    destruct (GoType_eq_dec u t) as [e|_]; [|discriminate].
    destruct e. simpl. intros [= ->]. reflexivity.
Qed.

Lemma Get_absent_or_other_type_witness :
  Get TInt32 npzDemo "array3" = (None, false) /\
  Get TInt32 npzDemo "array1" = (None, false) /\
  arrays npzDemo !! "array1" = Some (AnyArray TFloat64 (Some array1)).
Proof.
  destruct (Get_absent_or_other_type npzDemo "array3" TInt32) as [H1 _].
  destruct (Get_absent_or_other_type npzDemo "array1" TInt32) as [_ [H2 _]].
  destruct (Get_absent_or_other_type npzDemo "array1" TFloat64) as [_ [_ H3]].
  split; [apply H1; reflexivity|].
  split; [eapply H2; [reflexivity|discriminate]|].
  apply H3. reflexivity.
Defined.

(** ** CSV export *)

Section CsvFacts.
Context {T : Type} (Sprint : T -> bytes).

Lemma index_in_range (data : list T) (idx : Z) :
  0 <= idx < len data ->
  exists v, index data idx = Ok v /\ nth_error data (Z.to_nat idx) = Some v.
Proof.
  intros H. unfold index.
  destruct (idx <? 0) eqn:E1; [lia|].
  destruct (len data <=? idx) eqn:E2; [lia|]. simpl.
  destruct (nth_error data (Z.to_nat idx)) as [v|] eqn:E.
  - eauto.
  - apply nth_error_None in E. unfold len in H. lia.
Qed.

(** The index the source computes for the field at row [r], column [c]. *)
Lemma cell_index (fortran : bool) (R C r c : Z) :
  0 <= r < R -> 0 <= c < C -> R * C < 2 ^ 63 ->
  let idx := if fortran then int_add (int_mul c R) r
             else int_add (int_mul r C) c in
  idx = (if fortran then c * R + r else r * C + c) /\ 0 <= idx < R * C.
Proof.
  intros Hr Hc Hb. unfold int_add, int_mul.
  assert (0 <= c * R /\ c * R + r < R * C) by nia.
  assert (0 <= r * C /\ r * C + c < R * C) by nia.
  destruct fortran; simpl.
  - rewrite (wrap64_id (c * R)) by lia. rewrite wrap64_id by lia. lia.
  - rewrite (wrap64_id (r * C)) by lia. rewrite wrap64_id by lia. lia.
Qed.
End CsvFacts.

Section CsvTable.
Context {T : Type} (Sprint : T -> bytes).
Variables (arr : Array.t T) (R C : Z).
Let data := elems (Array.Data arr).
Let cell (r c : Z) : Z := if Array.Fortran arr then c * R + r else r * C + c.
Hypothesis HR : 0 <= R.
Hypothesis HC : 0 <= C.
Hypothesis Hlen : len data = R * C.
Hypothesis Hint : len data < 2 ^ 63.

Lemma rowFields_table (r : Z) (n : nat) (c : Z) :
  0 <= r < R -> 0 <= c -> c + Z.of_nat n <= C ->
  exists fields,
    rowFields Sprint arr R C r n c = Ok fields /\
    length fields = n /\
    forall j, (j < n)%nat ->
      exists v, nth_error fields j = Some (Sprint v) /\
                nth_error data (Z.to_nat (cell r (c + Z.of_nat j))) = Some v.
Proof using HR HC Hlen Hint.
  intros Hr. revert c. induction n as [|n IH]; intros c Hc Hn.
  - exists []. split; [reflexivity|]. split; [reflexivity|]. intros j Hj. lia.
  - cbn [rowFields].
    destruct (cell_index (Array.Fortran arr) R C r c) as [Hidx Hrange];
      [lia|lia|lia|].
    cbv zeta in Hidx, Hrange. rewrite Hidx in *.
    destruct (index_in_range data (cell r c)) as (v & Hv & Hnth).
    { unfold cell. lia. }
    fold data. unfold cell in Hv. rewrite Hv.
    destruct (IH (c + 1)) as (fields & Hf & Hl & Hcells); [lia|lia|].
    rewrite Hf. exists (Sprint v :: fields).
    split; [reflexivity|]. split; [simpl; lia|].
    intros [|j] Hj.
    + exists v. split; [reflexivity|]. rewrite Z.add_0_r. exact Hnth.
    + destruct (Hcells j) as (v' & H1 & H2); [lia|].
      exists v'. split; [exact H1|].
      replace (c + Z.of_nat (S j)) with (c + 1 + Z.of_nat j) by lia. exact H2.
Qed.

Lemma writeRows_table (n : nat) (r : Z) (w : list (list bytes)) :
  0 <= r -> r + Z.of_nat n <= R ->
  exists rows,
    writeRows Sprint arr R C n r w = (Ok tt, w ++ rows) /\
    length rows = n /\
    forall i, (i < n)%nat ->
      exists row, nth_error rows i = Some row /\
        len row = C /\
        forall c, 0 <= c < C ->
          exists v, nth_error row (Z.to_nat c) = Some (Sprint v) /\
                    nth_error data (Z.to_nat (cell (r + Z.of_nat i) c)) = Some v.
Proof using HR HC Hlen Hint.
  revert r w. induction n as [|n IH]; intros r w Hr Hn.
  - exists []. split; [simpl; unfold ret; rewrite app_nil_r; reflexivity|].
    split; [reflexivity|]. intros i Hi. lia.
  - cbn [writeRows].
    destruct (C <? 0) eqn:EC; [lia|].
    destruct (rowFields_table r (Z.to_nat C) 0) as (fields & Hf & Hl & Hcells);
      [lia|lia|lia|].
    destruct (IH (r + 1) (w ++ [fields])) as (rows & Hw & Hlr & Hrows); [lia|lia|].
    exists (fields :: rows). split.
    { unfold bind, lift. rewrite Hf. rewrite Hw.
      rewrite <- app_assoc. reflexivity. }
    split; [simpl; lia|].
    intros [|i] Hi.
    + exists fields. split; [reflexivity|]. split; [unfold len; lia|].
      intros c Hc. destruct (Hcells (Z.to_nat c)) as (v & H1 & H2); [lia|].
      exists v. split; [exact H1|].
      rewrite Z.add_0_r. rewrite Z2Nat.id in H2 by lia. exact H2.
    + destruct (Hrows i) as (row & H1 & H2 & H3); [lia|].
      exists row. split; [exact H1|]. split; [exact H2|].
      intros c Hc. destruct (H3 c Hc) as (v & Hv1 & Hv2).
      exists v. split; [exact Hv1|].
      replace (r + Z.of_nat (S i)) with (r + 1 + Z.of_nat i) by lia. exact Hv2.
Qed.
End CsvTable.

Section CsvLayout.
Context {T : Type} (Sprint : T -> bytes).

Lemma rowFields_ext (a1 a2 : Array.t T) (R C r : Z) (n : nat) (c : Z) :
  (forall j, (j < n)%nat ->
     index (elems (Array.Data a1))
       (if Array.Fortran a1 then int_add (int_mul (c + Z.of_nat j) R) r
        else int_add (int_mul r C) (c + Z.of_nat j)) =
     index (elems (Array.Data a2))
       (if Array.Fortran a2 then int_add (int_mul (c + Z.of_nat j) R) r
        else int_add (int_mul r C) (c + Z.of_nat j))) ->
  rowFields Sprint a1 R C r n c = rowFields Sprint a2 R C r n c.
Proof.
  revert c. induction n as [|n IH]; intros c H; [reflexivity|].
  cbn [rowFields].
  pose proof (H O ltac:(lia)) as H0. rewrite Z.add_0_r in H0. rewrite H0.
  rewrite (IH (c + 1)); [reflexivity|].
  intros j Hj. specialize (H (S j) ltac:(lia)).
  replace (c + 1 + Z.of_nat j) with (c + Z.of_nat (S j)) by lia. exact H.
Qed.

Lemma writeRows_ext (a1 a2 : Array.t T) (R C : Z) (n : nat) (r : Z)
    (w : list (list bytes)) :
  (forall i, (i < n)%nat ->
     rowFields Sprint a1 R C (r + Z.of_nat i) (Z.to_nat C) 0 =
     rowFields Sprint a2 R C (r + Z.of_nat i) (Z.to_nat C) 0) ->
  writeRows Sprint a1 R C n r w = writeRows Sprint a2 R C n r w.
Proof.
  revert r w. induction n as [|n IH]; intros r w H; [reflexivity|].
  cbn [writeRows]. destruct (C <? 0); [reflexivity|].
  unfold bind, lift.
  pose proof (H O ltac:(lia)) as H0. rewrite Z.add_0_r in H0. rewrite H0.
  destruct (rowFields Sprint a2 R C r (Z.to_nat C) 0); try reflexivity.
  apply IH. intros i Hi. specialize (H (S i) ltac:(lia)).
  replace (r + 1 + Z.of_nat i) with (r + Z.of_nat (S i)) by lia. exact H.
Qed.
End CsvLayout.

(** C6. A 2-dimensional array of shape [[R; C]] (with the [R * C] elements the
    data model requires) projects to [R] rows of [C] fields; the field at row
    [r], column [c] is the text of [data[c*R + r]] for a column-major array and
    of [data[r*C + c]] for a row-major one.  Hence a row-major and a
    column-major array that hold the same logical matrix project to the same
    table, as the 2x3 matrices of the tests do. *)
Theorem ToCsv_matrix_layout :
  (forall (T : Type) (Sprint : T -> bytes) (arr : Array.t T) (R C : Z)
          (w : list (list bytes)),
     Array.Shape arr = Some [R; C] -> 0 <= R -> 0 <= C ->
     len (elems (Array.Data arr)) = R * C ->
     len (elems (Array.Data arr)) < 2 ^ 63 ->
     exists rows,
       ToCsv Sprint arr w = (Ok tt, w ++ rows) /\
       len rows = R /\
       forall r, 0 <= r < R ->
         exists row, nth_error rows (Z.to_nat r) = Some row /\
           len row = C /\
           forall c, 0 <= c < C ->
             exists v, nth_error row (Z.to_nat c) = Some (Sprint v) /\
               nth_error (elems (Array.Data arr))
                 (Z.to_nat (if Array.Fortran arr then c * R + r else r * C + c))
               = Some v) /\
  (forall (T : Type) (Sprint : T -> bytes) (rowMajor colMajor : Array.t T)
          (R C : Z) (w : list (list bytes)),
     Array.Shape rowMajor = Some [R; C] -> Array.Shape colMajor = Some [R; C] ->
     Array.Fortran rowMajor = false -> Array.Fortran colMajor = true ->
     0 <= R -> 0 <= C ->
     len (elems (Array.Data rowMajor)) = R * C ->
     len (elems (Array.Data colMajor)) = R * C ->
     R * C < 2 ^ 63 ->
     (forall r c, 0 <= r < R -> 0 <= c < C ->
        nth_error (elems (Array.Data rowMajor)) (Z.to_nat (r * C + c)) =
        nth_error (elems (Array.Data colMajor)) (Z.to_nat (c * R + r))) ->
     ToCsv Sprint rowMajor w = ToCsv Sprint colMajor w) /\
  ToCsv Itoa matrixC [] = (Ok tt, [[str "1"; str "2"; str "3"]; [str "4"; str "5"; str "6"]]) /\
  ToCsv Itoa matrixF [] = (Ok tt, [[str "1"; str "2"; str "3"]; [str "4"; str "5"; str "6"]]).
Proof.
  split; [|split; [|split; reflexivity]].
  - intros T Sprint arr R C w Hs HR HC Hlen Hint.
    unfold ToCsv. rewrite Hs. cbn [elems len length nth].
    change (Z.of_nat 2 =? 0) with false. change (Z.of_nat 2 =? 1) with false.
    change (Z.of_nat 2 =? 2) with true. cbn [orb andb].
    destruct (writeRows_table Sprint arr R C HR HC Hlen Hint (Z.to_nat R) 0 w)
      as (rows & Hw & Hl & Hrows); [lia|lia|].
    exists rows. split; [exact Hw|]. split; [unfold len; lia|].
    intros r Hr. destruct (Hrows (Z.to_nat r)) as (row & H1 & H2 & H3); [lia|].
    exists row. split; [exact H1|]. split; [exact H2|].
    intros c Hc. destruct (H3 c Hc) as (v & Hv1 & Hv2).
    exists v. split; [exact Hv1|].
    rewrite Z.add_0_l, Z2Nat.id in Hv2 by lia. exact Hv2.
  - intros T Sprint a1 a2 R C w Hs1 Hs2 Hf1 Hf2 HR HC Hl1 Hl2 Hb Hsame.
    unfold ToCsv. rewrite Hs1, Hs2. cbn [elems len length nth].
    change (Z.of_nat 2 =? 0) with false. change (Z.of_nat 2 =? 1) with false.
    change (Z.of_nat 2 =? 2) with true. cbn [orb andb].
    apply writeRows_ext. intros i Hi. apply rowFields_ext. intros j Hj.
    rewrite Hf1, Hf2.
    set (r := 0 + Z.of_nat i). set (c := 0 + Z.of_nat j).
    assert (Hr : 0 <= r < R) by lia. assert (Hc : 0 <= c < C) by lia.
    destruct (cell_index false R C r c Hr Hc Hb) as [E1 B1].
    destruct (cell_index true R C r c Hr Hc Hb) as [E2 B2].
    cbv zeta in E1, E2, B1, B2. cbn [negb] in *.
    rewrite E1, E2 in *.
    destruct (index_in_range (elems (Array.Data a1)) (r * C + c)) as (v1 & I1 & N1);
      [lia|].
    destruct (index_in_range (elems (Array.Data a2)) (c * R + r)) as (v2 & I2 & N2);
      [lia|].
    rewrite I1, I2. f_equal.
    specialize (Hsame r c Hr Hc). congruence.
Qed.

Lemma ToCsv_matrix_layout_witness :
  (exists rows, ToCsv Itoa matrixF [] = (Ok tt, [] ++ rows) /\ len rows = 2) /\
  ToCsv Itoa matrixC [] = ToCsv Itoa matrixF [].
Proof.
  destruct ToCsv_matrix_layout as (H1 & H2 & _).
  split.
  - destruct (H1 Z Itoa matrixF 2 3 []) as (rows & Hw & Hl & _);
      [reflexivity|lia|lia|reflexivity|reflexivity|].
    exists rows. split; assumption.
  - apply (H2 Z Itoa matrixC matrixF 2 3 []); try reflexivity; try lia.
    intros r c Hr Hc.
    assert (Er : r = 0 \/ r = 1) by lia.
    assert (Ec : c = 0 \/ c = 1 \/ c = 2) by lia.
    destruct Er as [-> | ->]; destruct Ec as [-> | [-> | ->]]; reflexivity.
Defined.

(** C7. [ToCsv] by number of dimensions: an empty shape, or the shape [[0]],
    writes no row and returns no error; a shape [[n]] with [n > 0] writes one
    row that holds the text of every element of the data in order; three or
    more dimensions return the error of unsupported dimensionality and write
    nothing. *)
Theorem ToCsv_dimensions (T : Type) (Sprint : T -> bytes) (arr : Array.t T)
    (w : list (list bytes)) :
  (elems (Array.Shape arr) = [] \/ elems (Array.Shape arr) = [0] ->
     ToCsv Sprint arr w = (Ok tt, w)) /\
  (forall n, elems (Array.Shape arr) = [n] -> 0 < n ->
     ToCsv Sprint arr w = (Ok tt, w ++ [map Sprint (elems (Array.Data arr))])) /\
  (3 <= len (elems (Array.Shape arr)) ->
     ToCsv Sprint arr w =
       (Err (Errorf "arrays with more than 2 dimensions are not supported for Csv export"), w)).
Proof.
  unfold ToCsv. split; [|split].
  - intros [-> | ->]; reflexivity.
  - intros n -> Hn. cbn [len length nth].
    change (Z.of_nat 1 =? 0) with false. change (Z.of_nat 1 =? 1) with true.
    cbn [orb andb]. destruct (n =? 0) eqn:E; [lia|]. reflexivity.
  - intros H3.
    destruct (len (elems (Array.Shape arr)) =? 0) eqn:E0; [lia|].
    destruct (len (elems (Array.Shape arr)) =? 1) eqn:E1; [lia|].
    destruct (len (elems (Array.Shape arr)) =? 2) eqn:E2; [lia|].
    reflexivity.
Qed.

Lemma ToCsv_dimensions_witness :
  ToCsv Itoa emptyVec [] = (Ok tt, []) /\
  ToCsv Itoa vector5 [] = (Ok tt, [[str "5"; str "6"; str "7"; str "8"; str "9"]]) /\
  ToCsv Itoa cube [] =
    (Err (Errorf "arrays with more than 2 dimensions are not supported for Csv export"), []).
Proof.
  split; [|split].
  - apply (ToCsv_dimensions Z Itoa emptyVec []). right. reflexivity.
  - apply (proj1 (proj2 (ToCsv_dimensions Z Itoa vector5 [])) 5); [reflexivity|lia].
  - apply (ToCsv_dimensions Z Itoa cube []). vm_compute. discriminate.
Defined.

(** ** Encoding: validation *)

Lemma totalElements_wrap (shape : list Z) :
  totalElements shape = wrap64 (product shape).
Proof.
  unfold totalElements.
  assert (G : forall s a, fold_left int_mul s (wrap64 a) = wrap64 (a * product s)).
  { induction s as [|d s IH]; intros a; simpl.
    - f_equal. lia.
    - unfold int_mul at 2. rewrite wrap64_mul_l, IH. f_equal. lia. }
  change 1 with (wrap64 1) at 1. rewrite G. f_equal. lia.
Qed.

Lemma totalElements_product (shape : list Z) :
  - 2 ^ 63 <= product shape < 2 ^ 63 -> totalElements shape = product shape.
Proof. intros H. rewrite totalElements_wrap. apply wrap64_id, H. Qed.

(** What [Write] does, by cases of its validation. *)
Lemma Write_cases (t : GoType) (arr : Array.t (goVal t)) (w : bytes) :
  Write t arr w =
    match Array.Data arr, Array.Shape arr with
    | None, _ => (Err (Errorf "array data is nil"), w)
    | Some _, None => (Err (Errorf "array shape is nil"), w)
    | Some data, Some shape =>
        if String.eqb (Array.DType arr) "" then (Err (Errorf "array dtype is empty"), w)
        else if len data =? totalElements shape then (Ok tt, w ++ stream t arr)
        else (Err (Errorf "data length does not match shape dimensions"), w)
    end.
Proof.
  unfold Write, stream.
  destruct (Array.Data arr) as [data|]; [|reflexivity].
  destruct (Array.Shape arr) as [shape|]; [|reflexivity].
  destruct (String.eqb (Array.DType arr) ""); [reflexivity|].
  destruct (len data =? totalElements shape); [|reflexivity].
  cbn [negb elems]. unfold bind, w_Write, binary_Write_uint, binary_Write_slice, w_Write.
  cbv beta iota. repeat rewrite <- app_assoc. reflexivity.
Qed.

(** C3 (as amended).  On a writer that takes every byte, and for a shape
    whose product fits a Go [int], [Write] fails exactly when the data is nil,
    the shape is nil, the dtype is the empty string, or the length of the data
    differs from the product of the shape; it then has written nothing.
    Otherwise it succeeds. *)
Theorem Write_fails_iff (t : GoType) (arr : Array.t (goVal t)) (w : bytes) :
  - 2 ^ 63 <= product (elems (Array.Shape arr)) < 2 ^ 63 ->
  (isErr (fst (Write t arr w)) <->
     (Array.Data arr = None \/ Array.Shape arr = None \/ Array.DType arr = ""%string \/
      len (elems (Array.Data arr)) <> product (elems (Array.Shape arr)))) /\
  (isErr (fst (Write t arr w)) -> snd (Write t arr w) = w) /\
  (~ isErr (fst (Write t arr w)) -> Write t arr w = (Ok tt, w ++ stream t arr)).
Proof.
  intros Hfit. rewrite Write_cases.
  destruct (Array.Data arr) as [data|].
  2:{ split; [|split].
      - split; [auto|]. intros _. eexists; reflexivity.
      - reflexivity.
      - intros H. exfalso. apply H. eexists; reflexivity. }
  destruct (Array.Shape arr) as [shape|].
  2:{ split; [|split].
      - split; [auto|]. intros _. eexists; reflexivity.
      - reflexivity.
      - intros H. exfalso. apply H. eexists; reflexivity. }
  cbn [elems] in *. rewrite (totalElements_product shape Hfit).
  destruct (String.eqb (Array.DType arr) "") eqn:Ed.
  { apply String.eqb_eq in Ed. split; [|split].
    - split; [auto|]. intros _. eexists; reflexivity.
    - reflexivity.
    - intros H. exfalso. apply H. eexists; reflexivity. }
  apply String.eqb_neq in Ed.
  destruct (len data =? product shape) eqn:El.
  - apply Z.eqb_eq in El. split; [|split].
    + split.
      * intros [e He]. discriminate.
      * intros [H|[H|[H|H]]]; try discriminate; contradiction.
    + intros [e He]. discriminate.
    + reflexivity.
  - apply Z.eqb_neq in El. split; [|split].
    + split; [auto|]. intros _. eexists; reflexivity.
    + reflexivity.
    + intros H. exfalso. apply H. eexists; reflexivity.
Qed.

Lemma Write_fails_iff_witness :
  Write TInt32 array2 [] = (Ok tt, [] ++ stream TInt32 array2).
Proof.
  destruct (Write_fails_iff TInt32 array2 []) as (Hiff & _ & Hok).
  { vm_compute. split; [discriminate|reflexivity]. }
  apply Hok. intros He. apply Hiff in He.
  destruct He as [H|[H|[H|H]]]; try discriminate. apply H. reflexivity.
Defined.

(** C3 as first stated does not hold: a nil data slice has length 0, the
    product of the shape [[0]] is 0, and yet [Write] rejects the array. *)
Lemma Write_fails_iff_counterexample :
  len (elems (Array.Data nilData)) = product (elems (Array.Shape nilData)) /\
  Write TFloat64 nilData [] = (Err (Errorf "array data is nil"), []) /\
  ~ (forall (t : GoType) (arr : Array.t (goVal t)) (w : bytes),
       isErr (fst (Write t arr w)) <->
       len (elems (Array.Data arr)) <> product (elems (Array.Shape arr))).
Proof.
  split; [reflexivity|]. split; [reflexivity|].
  intros H. destruct (H TFloat64 nilData []) as [H1 _].
  apply H1; [eexists; reflexivity|reflexivity].
Qed.

(** ** Decimal text of integers *)

Lemma bytes_eqb_eq (a b : bytes) : bytes_eqb a b = true <-> a = b.
Proof.
  revert b. induction a as [|x a IH]; intros [|y b]; simpl; try (split; congruence).
  rewrite andb_true_iff, Ascii.eqb_eq, IH. split.
  - intros [-> ->]. reflexivity.
  - intros [= -> ->]. auto.
Qed.

Lemma bytes_eqb_refl (a : bytes) : bytes_eqb a a = true.
Proof. apply bytes_eqb_eq. reflexivity. Qed.

Lemma uint_digits (u : uint) :
  Forall (fun c => isDigit c = true) (str (NilEmpty.string_of_uint u)).
Proof. induction u; simpl; constructor; auto. Qed.

Lemma Itoa_nonneg (z : Z) :
  0 <= z ->
  exists u, u <> Nil /\ Itoa z = str (NilEmpty.string_of_uint u) /\
            Z.of_N (N.of_uint u) = z.
Proof.
  intros Hz. unfold Itoa. destruct z as [|p|p]; [| |lia].
  - exists (D0 Nil). split; [discriminate|]. split; reflexivity.
  - exists (Pos.to_uint p). split; [apply Unsigned.to_uint_nonnil|]. split.
    + simpl. pose proof (Unsigned.to_uint_nonnil p).
      destruct (Pos.to_uint p); [contradiction|reflexivity..].
    + unfold N.of_uint. rewrite Unsigned.of_to. reflexivity.
Qed.

Lemma Itoa_digits (z : Z) :
  0 <= z -> Forall (fun c => isDigit c = true) (Itoa z) /\ Itoa z <> [].
Proof.
  intros Hz. destruct (Itoa_nonneg z Hz) as (u & Hu & -> & _).
  split; [apply uint_digits|].
  destruct u; [contradiction|discriminate..].
Qed.

Lemma Itoa_chars (z : Z) :
  Forall (fun c => isDigit c = true \/ c = "-"%char) (Itoa z).
Proof.
  destruct (Z.neg_nonneg_cases z) as [Hneg|Hz].
  - unfold Itoa. destruct z as [|p|p]; try lia. simpl.
    constructor; [right; reflexivity|].
    pose proof (Unsigned.to_uint_nonnil p).
    assert (E : NilZero.string_of_uint (Pos.to_uint p)
                = NilEmpty.string_of_uint (Pos.to_uint p)).
    { destruct (Pos.to_uint p); [contradiction|reflexivity..]. }
    rewrite E. eapply List.Forall_impl; [|apply uint_digits]. simpl. auto.
  - eapply List.Forall_impl; [|apply (proj1 (Itoa_digits z Hz))]. simpl. auto.
Qed.

Lemma digitsVal_Itoa (z : Z) : 0 <= z -> digitsVal (Itoa z) = Some z.
Proof.
  intros Hz. destruct (Itoa_nonneg z Hz) as (u & Hu & E & Hv).
  destruct (Itoa_digits z Hz) as [_ Hne].
  unfold digitsVal. destruct (Itoa z) as [|c s] eqn:Ez; [contradiction|].
  rewrite E. unfold str. rewrite string_of_list_ascii_of_string.
  rewrite NilEmpty.usu, Hv. reflexivity.
Qed.

Lemma Atoi_Itoa (z : Z) : 0 <= z < 2 ^ 63 -> Atoi (Itoa z) = Some z.
Proof.
  intros Hz. destruct (Itoa_digits z) as [Hd Hne]; [lia|].
  pose proof (digitsVal_Itoa z ltac:(lia)) as Hv.
  unfold Atoi. destruct (Itoa z) as [|c s] eqn:Ez; [contradiction|].
  assert (Hc : isDigit c = true) by (inversion Hd; assumption).
  destruct (Ascii.eqb c "-") eqn:E1.
  { apply Ascii.eqb_eq in E1. subst c. discriminate. }
  destruct (Ascii.eqb c "+") eqn:E2.
  { apply Ascii.eqb_eq in E2. subst c. discriminate. }
  rewrite Hv. cbv zeta.
  destruct (- 2 ^ 63 <=? z) eqn:B1; [|lia].
  destruct (z <? 2 ^ 63) eqn:B2; [|lia]. reflexivity.
Qed.

(** ** The header text that [generateHeader] builds *)

Ltac ascii_cases c :=
  destruct c as [[] [] [] [] [] [] [] []]; vm_compute in *; try congruence; auto.

Lemma isDigit_anyButNL (c : ascii) : isDigit c = true -> anyButNL c = true.
Proof. intros H. ascii_cases c. Qed.

Lemma isDigit_shapeCls (c : ascii) : isDigit c = true -> shapeCls c = true.
Proof. intros H. unfold shapeCls. rewrite H. reflexivity. Qed.

Lemma dtypeStr_of_token (d : DType) : In (dtypeStr_of d) tokens.
Proof.
  unfold dtypeStr_of.
  repeat match goal with
         | |- context [String.eqb d ?x] => destruct (String.eqb d x)
         end; simpl; tauto.
Qed.

Lemma formatDims_Forall (P : ascii -> Prop) (dims : list Z) :
  P ","%char -> P " "%char -> Forall (fun d => Forall P (Itoa d)) dims ->
  forall i acc, Forall P acc -> Forall P (formatDims i dims acc).
Proof.
  intros Hc Hs. induction 1 as [|d dims Hd _ IH]; intros i acc Hacc; simpl.
  - exact Hacc.
  - apply IH. apply Forall_app. split; [|exact Hd].
    destruct (0 <? i)%nat; [|exact Hacc].
    apply Forall_app. split; [exact Hacc|]. repeat constructor; assumption.
Qed.

Lemma generateHeader_no_newline {T} (arr : Array.t T) :
  Forall (fun c => anyButNL c = true) (generateHeader arr).
Proof.
  unfold generateHeader.
  repeat (apply Forall_app; split); try (repeat constructor; fail).
  - pose proof (dtypeStr_of_token (Array.DType arr)) as H.
    simpl in H. decompose [or] H; try contradiction;
      match goal with E : _ = dtypeStr_of _ |- _ => rewrite <- E end;
      repeat constructor.
  - destruct (Array.Fortran arr); repeat constructor.
  - destruct (length (elems (Array.Shape arr)) =? 0)%nat;
      [|destruct (length (elems (Array.Shape arr)) =? 1)%nat];
      repeat (apply Forall_app; split); try (repeat constructor; fail);
      (apply formatDims_Forall; [reflexivity|reflexivity| |repeat constructor];
       apply Forall_forall; intros d _;
       eapply List.Forall_impl; [|apply Itoa_chars];
       intros c [Hc| ->]; [apply isDigit_anyButNL, Hc|reflexivity]).
Qed.

Lemma paddingLen_range (h : bytes) :
  1 <= paddingLen h <= 16 /\ (10 + (len h + paddingLen h)) mod 16 = 0.
Proof.
  unfold paddingLen. pose proof (len_nonneg h).
  rewrite Z.rem_mod_nonneg by lia.
  pose proof (Z.mod_pos_bound (10 + len h) 16 ltac:(lia)) as Hm.
  destruct (16 - (10 + len h) mod 16 <? 1) eqn:E; [lia|].
  split; [lia|].
  replace (10 + (len h + (16 - (10 + len h) mod 16)))
    with ((10 + len h) - (10 + len h) mod 16 + 1 * 16) by lia.
  rewrite Z.mod_add by lia.
  rewrite Zminus_mod, Z.mod_mod, Z.sub_diag by lia. reflexivity.
Qed.

Lemma len_Repeat (c : ascii) (n : Z) : 0 <= n -> len (Repeat c n) = n.
Proof. intros H. unfold len, Repeat. rewrite repeat_length. lia. Qed.

Lemma len_padHeader (h : bytes) : len (padHeader h) = len h + paddingLen h.
Proof.
  unfold padHeader. pose proof (paddingLen_range h) as [H _].
  rewrite !len_app, len_Repeat by lia. change (len (str _)) with 1. lia.
Qed.

(** C2. When [Write] accepts an array, the header text it emits is the text
    of [generateHeader] followed by spaces and one newline; that text has no
    other newline, the padding (spaces and newline) is between 1 and 16 bytes,
    and 10 plus the length of the padded text is a multiple of 16. *)
Theorem Write_header_padding (t : GoType) (arr : Array.t (goVal t)) (w w' : bytes) :
  Write t arr w = (Ok tt, w') ->
  let h := generateHeader arr in
  let p := padHeader h in
  w' = w ++ magic ++ le_bytes 1 1 ++ le_bytes 1 0 ++ le_bytes 2 (uint16 (len p))
         ++ p ++ concat (map (putLE t) (elems (Array.Data arr))) /\
  (10 + len p) mod 16 = 0 /\
  1 <= len p - len h /\
  (exists n, p = h ++ repeat " "%char n ++ ["010"%char]) /\
  Forall (fun c => c <> "010"%char) h.
Proof.
  intros HW h p. rewrite Write_cases in HW.
  assert (E : w' = w ++ stream t arr).
  { destruct (Array.Data arr); [|discriminate].
    destruct (Array.Shape arr); [|discriminate].
    destruct (String.eqb _ _); [discriminate|].
    destruct (_ =? _); [|discriminate]. congruence. }
  pose proof (paddingLen_range h) as [Hr Hm].
  split; [exact E|]. unfold p. rewrite len_padHeader.
  split; [exact Hm|]. split; [lia|]. split.
  - eexists. reflexivity.
  - eapply List.Forall_impl; [|apply generateHeader_no_newline].
    intros c Hc ->. discriminate.
Qed.

Lemma Write_header_padding_witness :
  (10 + len (padHeader (generateHeader array2))) mod 16 = 0 /\
  1 <= len (padHeader (generateHeader array2)) - len (generateHeader array2).
Proof.
  destruct (Write_header_padding TInt32 array2 [] (stream TInt32 array2))
    as (_ & H1 & H2 & _); [reflexivity|].
  split; assumption.
Defined.

(** ** Reading and writing fixed-width values *)

Lemma byteZ_Zbyte (z : Z) : byteZ (Zbyte z) = z mod 256.
Proof.
  unfold byteZ, Zbyte.
  pose proof (Z.mod_pos_bound z 256 ltac:(lia)).
  rewrite N_ascii_embedding by lia. lia.
Qed.

Lemma byteZ_range (b : ascii) : 0 <= byteZ b < 256.
Proof. unfold byteZ. pose proof (N_ascii_bounded b). lia. Qed.

Lemma length_le_bytes (w : nat) (z : Z) : length (le_bytes w z) = w.
Proof. revert z. induction w; intros z; simpl; auto. Qed.

Lemma le_val_le_bytes (w : nat) (z : Z) :
  le_val (le_bytes w z) = z mod 2 ^ (8 * Z.of_nat w).
Proof.
  revert z. induction w as [|w IH]; intros z.
  - simpl. rewrite Z.mod_1_r. reflexivity.
  - cbn [le_bytes le_val]. rewrite byteZ_Zbyte, IH.
    replace (8 * Z.of_nat (S w)) with (8 + 8 * Z.of_nat w) by lia.
    rewrite Z.pow_add_r by lia. change (2 ^ 8) with 256.
    rewrite Z.rem_mul_r by lia. reflexivity.
Qed.

Lemma ReadFull_app (a b : bytes) : ReadFull (length a) (a ++ b) = (Ok a, b).
Proof.
  unfold ReadFull. rewrite length_app.
  destruct (_ <? _)%nat eqn:E; [apply Nat.ltb_lt in E; lia|].
  rewrite firstn_app, Nat.sub_diag, firstn_all, skipn_app, Nat.sub_diag, skipn_all.
  simpl. rewrite app_nil_r. reflexivity.
Qed.

Lemma ReadFull_app_n (n : nat) (a b : bytes) :
  length a = n -> ReadFull n (a ++ b) = (Ok a, b).
Proof. intros <-. apply ReadFull_app. Qed.

Lemma binary_Read_uint_le (w : nat) (v : Z) (rest : bytes) :
  binary_Read_uint w (le_bytes w v ++ rest) = (Ok (v mod 2 ^ (8 * Z.of_nat w)), rest).
Proof.
  unfold binary_Read_uint, bind.
  rewrite ReadFull_app_n by apply length_le_bytes.
  unfold ret. rewrite le_val_le_bytes. reflexivity.
Qed.

Lemma wrapErr_ok {S A} (msg : string) (c : ST S A) (s s' : S) (a : A) :
  c s = (Ok a, s') -> wrapErr msg c s = (Ok a, s').
Proof. unfold wrapErr. intros ->. reflexivity. Qed.

(** The header length of a version-1 and of a version-2 envelope. *)
Lemma readHeaderLen_v1 (from in_ : string) (minor n : Z) (rest : bytes) :
  readHeaderLen from in_ (le_bytes 1 1 ++ le_bytes 1 minor ++ le_bytes 2 n ++ rest)
  = (Ok (n mod 2 ^ 16), rest).
Proof.
  unfold readHeaderLen, bind.
  rewrite (wrapErr_ok _ _ _ _ _ (binary_Read_uint_le 1 1 _)).
  rewrite (wrapErr_ok _ _ _ _ _ (binary_Read_uint_le 1 minor _)).
  change (1 mod 2 ^ (8 * Z.of_nat 1) =? 1) with true. cbv beta iota.
  rewrite (wrapErr_ok _ _ _ _ _ (binary_Read_uint_le 2 n _)). reflexivity.
Qed.

Lemma readHeaderLen_v2 (from in_ : string) (minor L : Z) (rest : bytes) :
  readHeaderLen from in_ (le_bytes 1 2 ++ le_bytes 1 minor ++ le_bytes 4 L ++ rest)
  = (Ok ((L mod 2 ^ 32) mod 2 ^ 16), rest).
Proof.
  unfold readHeaderLen, bind.
  rewrite (wrapErr_ok _ _ _ _ _ (binary_Read_uint_le 1 2 _)).
  rewrite (wrapErr_ok _ _ _ _ _ (binary_Read_uint_le 1 minor _)).
  change (2 mod 2 ^ (8 * Z.of_nat 1) =? 1) with false.
  change (2 mod 2 ^ (8 * Z.of_nat 1) =? 2) with true. cbv beta iota.
  rewrite (wrapErr_ok _ _ _ _ _ (binary_Read_uint_le 4 L _)). reflexivity.
Qed.

Lemma mod32_mod16 (L : Z) : (L mod 2 ^ 32) mod 2 ^ 16 = L mod 2 ^ 16.
Proof.
  apply Z.mod_mod_divide. exists (2 ^ 16). reflexivity.
Qed.

(** ** Version-2 envelopes *)

Lemma ReadFull_enough (n : nat) (s : bytes) :
  (n <= length s)%nat -> ReadFull n s = (Ok (firstn n s), skipn n s).
Proof.
  intros H. unfold ReadFull.
  destruct (_ <? _)%nat eqn:E; [apply Nat.ltb_lt in E; lia|reflexivity].
Qed.

Lemma bind_ok {S A B} (c : ST S A) (k : A -> ST S B) (s s' : S) (a : A) :
  c s = (Ok a, s') -> bind c k s = k a s'.
Proof. unfold bind. intros ->. reflexivity. Qed.

(** C9. In a stream whose major version is 2, the 4-byte header length [L]
    is narrowed to 16 bits: [Read] and the first pass of [ReadNPZFile] both
    take [L mod 2^16] as the header length, decode such a stream exactly as
    the version-1 stream that declares [L mod 2^16], and parse the first
    [L mod 2^16] bytes after the envelope as the header. *)
Theorem header_length_v2_narrowed (t : GoType) (m6 : bytes) (minor L : Z)
    (rest : bytes) :
  length m6 = 6%nat -> 0 <= L < 2 ^ 32 ->
  let n := L mod 2 ^ 16 in
  let v2 := le_bytes 1 2 ++ le_bytes 1 minor ++ le_bytes 4 L ++ rest in
  let v1 := le_bytes 1 1 ++ le_bytes 1 minor ++ le_bytes 2 n ++ rest in
  readHeaderLen "" "" v2 = (Ok n, rest) /\
  readHeaderLen " from" " in" v2 = (Ok n, rest) /\
  Read t (magic ++ v2) = Read t (magic ++ v1) /\
  peekHeader (m6 ++ v2) = peekHeader (m6 ++ v1) /\
  (n <= len rest ->
   Read t (magic ++ v2) =
     (do hdr <- wrapErr "failed to parse header"
                  (lift (parseHeader (firstn (Z.to_nat n) rest))) ;
      do data <- wrapErr "failed to read data" (readData t hdr) ;
      ret (Array.mk (Some data) (header.Shape hdr) (header.DType hdr)
                    (header.Fortran hdr))) (skipn (Z.to_nat n) rest) /\
   peekHeader (m6 ++ v2) =
     wrapErr "failed to parse header from"
       (lift (parseHeader (firstn (Z.to_nat n) rest))) (skipn (Z.to_nat n) rest)).
Proof.
  intros Hm HL n v2 v1.
  assert (E2 : forall f i, readHeaderLen f i v2 = (Ok n, rest)).
  { intros f i. unfold v2. rewrite readHeaderLen_v2, mod32_mod16. reflexivity. }
  assert (E1 : forall f i, readHeaderLen f i v1 = (Ok n, rest)).
  { intros f i. unfold v1. rewrite readHeaderLen_v1. unfold n.
    rewrite Z.mod_mod by lia. reflexivity. }
  assert (ER : forall v, Read t (magic ++ v) =
            (do headerLen <- readHeaderLen "" "" ;
             do headerBytes <- wrapErr "failed to read header"
                                 (ReadFull (Z.to_nat headerLen)) ;
             do hdr <- wrapErr "failed to parse header" (lift (parseHeader headerBytes)) ;
             do data <- wrapErr "failed to read data" (readData t hdr) ;
             ret (Array.mk (Some data) (header.Shape hdr) (header.DType hdr)
                           (header.Fortran hdr))) v).
  { intros v. unfold Read at 1. unfold bind at 1.
    rewrite (wrapErr_ok _ _ _ _ _ (ReadFull_app_n 6 magic v eq_refl)).
    rewrite bytes_eqb_refl. reflexivity. }
  assert (EP : forall v, peekHeader (m6 ++ v) =
            (do headerLen <- readHeaderLen " from" " in" ;
             do headerBytes <- wrapErr "failed to read header from"
                                 (ReadFull (Z.to_nat headerLen)) ;
             wrapErr "failed to parse header from" (lift (parseHeader headerBytes))) v).
  { intros v. unfold peekHeader at 1. unfold bind at 1.
    rewrite (wrapErr_ok _ _ _ _ _ (ReadFull_app_n 6 m6 v Hm)). reflexivity. }
  split; [apply E2|]. split; [apply E2|].
  split.
  { rewrite !ER. rewrite (bind_ok _ _ _ _ _ (E1 _ _)), (bind_ok _ _ _ _ _ (E2 _ _)).
    reflexivity. }
  split.
  { rewrite !EP. rewrite (bind_ok _ _ _ _ _ (E1 _ _)), (bind_ok _ _ _ _ _ (E2 _ _)).
    reflexivity. }
  intros Hn. unfold len in Hn. split.
  - rewrite ER, (bind_ok _ _ _ _ _ (E2 _ _)).
    assert (Hle : (Z.to_nat n <= length rest)%nat) by lia.
    rewrite (bind_ok _ _ _ _ _ (wrapErr_ok _ _ _ _ _ (ReadFull_enough _ _ Hle))).
    reflexivity.
  - rewrite EP, (bind_ok _ _ _ _ _ (E2 _ _)).
    assert (Hle : (Z.to_nat n <= length rest)%nat) by lia.
    rewrite (bind_ok _ _ _ _ _ (wrapErr_ok _ _ _ _ _ (ReadFull_enough _ _ Hle))).
    reflexivity.
Qed.

Lemma header_length_v2_narrowed_witness :
  readHeaderLen "" "" (le_bytes 1 2 ++ le_bytes 1 0 ++ le_bytes 4 65606 ++ [])
  = (Ok 70, []).
Proof.
  apply (header_length_v2_narrowed TInt32 magic 0 65606 []); [reflexivity|lia].
Defined.

(** ** The regular-expression matcher *)

Lemma star_sound {R} (cls : ascii -> bool) (k : bytes -> bytes -> option R)
    (s acc : bytes) (r : R) :
  star cls acc k s = Some r ->
  exists m s', s = m ++ s' /\ Forall (fun c => cls c = true) m /\
               k (acc ++ m) s' = Some r.
Proof.
  revert acc. induction s as [|c s IH]; intros acc H; simpl in H.
  - exists [], []. split; [reflexivity|]. split; [apply List.Forall_nil|rewrite app_nil_r; assumption].
  - destruct (cls c) eqn:Ec.
    + destruct (star cls (acc ++ [c]) k s) as [r'|] eqn:Es.
      * injection H as ->. destruct (IH _ Es) as (m & s' & -> & Hm & Hk).
        exists (c :: m), s'. rewrite <- app_assoc in Hk. simpl in Hk.
        split; [reflexivity|]. split; [apply List.Forall_cons; assumption|assumption].
      * exists [], (c :: s). 
        split; [reflexivity|]. split; [apply List.Forall_nil|rewrite app_nil_r; assumption].
    + exists [], (c :: s). 
      split; [reflexivity|]. split; [apply List.Forall_nil|rewrite app_nil_r; assumption].
Qed.

Lemma find_sound (r : regex) (s : bytes) (x : bytes * option bytes) :
  find r s = Some x -> exists s', matchAt r s' = Some x.
Proof.
  induction s as [|c s IH]; simpl.
  - destruct (matchAt r []) eqn:E; [|discriminate]. intros [= <-]. eauto.
  - destruct (matchAt r (c :: s)) eqn:E.
    + intros [= <-]. eauto.
    + exact IH.
Qed.

Lemma shapeRe_group (s m : bytes) (cap : option bytes) :
  find shapeRe s = Some (m, cap) ->
  exists g, cap = Some g /\ Forall (fun c => shapeCls c = true) g.
Proof.
  intros H. apply find_sound in H. destruct H as [s' H].
  unfold matchAt, shapeRe in H. cbn [run] in H.
  destruct (stripPrefix (str "'shape':") s') as [s0|]; [|discriminate].
  apply star_sound in H. destruct H as (m1 & s1 & _ & _ & H).
  destruct (stripPrefix (str "(") s1) as [s2|]; [|discriminate].
  apply star_sound in H. destruct H as (g & s3 & _ & Hg & H).
  destruct (stripPrefix (str ")") s3); [|discriminate].
  injection H as _ <-. exists g. split; [reflexivity|exact Hg].
Qed.

(** ** Parsing the shape *)

Lemma Split_Forall (P : ascii -> Prop) (sep : ascii) (s : bytes) :
  Forall P s -> Forall (Forall P) (Split s sep).
Proof.
  induction 1 as [|c s Hc _ IH]; simpl.
  - repeat constructor.
  - destruct (Ascii.eqb c sep).
    + constructor; [constructor|exact IH].
    + destruct (Split s sep) as [|p ps]; [repeat constructor; assumption|].
      inversion IH; subst. constructor; [constructor; assumption|assumption].
Qed.

Lemma trimLeft_Forall (P : ascii -> Prop) (s : bytes) :
  Forall P s -> Forall P (trimLeft s).
Proof.
  induction 1 as [|c s Hc Hs IH]; simpl; [constructor|].
  destruct (isSpace c); [exact IH|constructor; assumption].
Qed.

Lemma TrimSpace_Forall (P : ascii -> Prop) (s : bytes) :
  Forall P s -> Forall P (TrimSpace s).
Proof.
  intros H. unfold TrimSpace.
  apply Forall_rev, trimLeft_Forall, Forall_rev, trimLeft_Forall, H.
Qed.

(** A text without a minus sign never parses to a negative number. *)
Lemma Atoi_nonneg (s : bytes) (v : Z) :
  Forall (fun c => c <> "-"%char) s -> Atoi s = Some v -> 0 <= v.
Proof.
  intros Hs. unfold Atoi. destruct s as [|c t]; [discriminate|].
  assert (E : Ascii.eqb c "-" = false).
  { apply Ascii.eqb_neq. inversion Hs; assumption. }
  rewrite E.
  assert (G : forall ds, match digitsVal ds with
                         | Some n => if (- 2 ^ 63 <=? n) && (n <? 2 ^ 63)
                                     then Some n else None
                         | None => None
                         end = Some v -> 0 <= v).
  { intros ds. unfold digitsVal. destruct ds as [|d ds]; [discriminate|].
    destruct (NilEmpty.uint_of_string _); [|discriminate].
    destruct (_ && _); [|discriminate]. intros [= <-]. lia. }
  destruct (Ascii.eqb c "+"); apply G.
Qed.

Lemma parseDims_nonneg (parts : list bytes) :
  Forall (Forall (fun c => c <> "-"%char)) parts ->
  forall acc shape, Forall (fun d => 0 <= d) acc ->
    parseDims parts acc = Ok shape -> Forall (fun d => 0 <= d) shape.
Proof.
  induction 1 as [|p parts Hp _ IH]; intros acc shape Hacc; simpl.
  - intros [= <-]. exact Hacc.
  - destruct (bytes_eqb (TrimSpace p) []); [apply IH, Hacc|].
    destruct (Atoi (TrimSpace p)) as [dim|] eqn:E; [|discriminate].
    apply IH. apply Forall_app. split; [exact Hacc|].
    constructor; [|constructor].
    eapply Atoi_nonneg; [|exact E]. apply TrimSpace_Forall, Hp.
Qed.

Lemma shapeCls_not_minus (c : ascii) : shapeCls c = true -> c <> "-"%char.
Proof. intros H ->. discriminate. Qed.

(** ** What an accepted header contains *)

Lemma parseHeader_inv (headerStr : bytes) (h : header.t) :
  parseHeader headerStr = Ok h ->
  let dictStr := FindString dictRe headerStr in
  exists shapeStr shape dtypeStr dtype fortranMatch,
    dictStr <> [] /\
    nth_error (FindStringSubmatch shapeRe dictStr) 1 = Some shapeStr /\
    parseDims (Split shapeStr ",") [] = Ok shape /\
    nth_error (FindStringSubmatch dtypeRe dictStr) 1 = Some dtypeStr /\
    2 <= len dtypeStr /\
    typeFor (skipn 1 dtypeStr) = Some dtype /\
    nth_error (FindStringSubmatch fortranRe dictStr) 1 = Some fortranMatch /\
    h = header.mk (Some shape) dtype (bytes_eqb fortranMatch (str "True")).
Proof.
  intros H. cbv zeta. unfold parseHeader in H. cbv zeta in H.
  set (dictStr := FindString dictRe headerStr) in *.
  destruct (bytes_eqb dictStr []) eqn:Ed; [discriminate|].
  destruct (nth_error (FindStringSubmatch shapeRe dictStr) 1) as [shapeStr|] eqn:Es;
    [|discriminate].
  destruct (parseDims (Split shapeStr ",") []) as [shape| |] eqn:Ep; try discriminate.
  destruct (nth_error (FindStringSubmatch dtypeRe dictStr) 1) as [dtypeStr|] eqn:Et;
    [|discriminate].
  destruct (2 <=? len dtypeStr) eqn:El; [|discriminate].
  destruct (typeFor (skipn 1 dtypeStr)) as [dtype|] eqn:Ety; [|discriminate].
  destruct (nth_error (FindStringSubmatch fortranRe dictStr) 1) as [fm|] eqn:Ef;
    [|discriminate].
  injection H as <-.
  exists shapeStr, shape, dtypeStr, dtype, fm.
  apply Z.leb_le in El.
  split; [intros E; rewrite E in Ed; discriminate|].
  repeat (split; [reflexivity || assumption|]). reflexivity.
Qed.

Lemma typeFor_supported (typeChar : bytes) (d : DType) :
  typeFor typeChar = Some d -> In d dtypes.
Proof.
  unfold typeFor.
  repeat match goal with
         | |- context [bytes_eqb typeChar ?x] => destruct (bytes_eqb typeChar x)
         end; intros [= <-]; simpl; tauto.
Qed.

Lemma FindStringSubmatch_group (r : regex) (s g : bytes) :
  nth_error (FindStringSubmatch r s) 1 = Some g ->
  exists m cap, find r s = Some (m, cap) /\
                g = match cap with Some g => g | None => [] end.
Proof.
  unfold FindStringSubmatch. destruct (find r s) as [[m cap]|]; [|discriminate].
  simpl. intros [= <-]. eauto.
Qed.

(** C10. Every shape that [parseHeader] returns has non-negative dimensions
    only, and so has every array that [Read] returns: the shape field is
    matched against digits, commas and white space, so a dimension written
    with a minus sign is not matched. *)
Theorem decoded_shape_nonneg :
  (forall headerStr h, parseHeader headerStr = Ok h ->
     Forall (fun d => 0 <= d) (elems (header.Shape h))) /\
  (forall t s arr s', Read t s = (Ok arr, s') ->
     Forall (fun d => 0 <= d) (elems (Array.Shape arr))) /\
  parseHeader (str "{'descr': '<f8', 'fortran_order': False, 'shape': (-1,), }")
    = Err (Errorf "shape not found in header").
Proof.
  assert (G : forall headerStr h, parseHeader headerStr = Ok h ->
            Forall (fun d => 0 <= d) (elems (header.Shape h))).
  { intros headerStr h H. apply parseHeader_inv in H. cbv zeta in H.
    destruct H as (shapeStr & shape & dtypeStr & dtype & fm & _ & Hs & Hp & _ & _ & _ & _ & ->).
    apply FindStringSubmatch_group in Hs. destruct Hs as (m & cap & Hf & ->).
    apply shapeRe_group in Hf. destruct Hf as (g & -> & Hg).
    simpl. eapply parseDims_nonneg; [|constructor|exact Hp].
    apply Split_Forall. eapply List.Forall_impl; [|exact Hg].
    apply shapeCls_not_minus. }
  split; [exact G|]. split; [|reflexivity].
  intros t s arr s' H. unfold Read, bind in H.
  destruct (wrapErr _ (ReadFull 6) s) as [[m6| |] s1]; try discriminate.
  destruct (negb _); [discriminate|].
  destruct (readHeaderLen _ _ s1) as [[n| |] s2]; try discriminate.
  destruct (wrapErr _ (ReadFull _) s2) as [[hb| |] s3]; try discriminate.
  unfold wrapErr at 1, lift in H.
  destruct (parseHeader hb) as [hdr| |] eqn:Eh; try discriminate.
  destruct (wrapErr _ (readData t hdr) s3) as [[data| |] s4]; try discriminate.
  unfold ret in H. injection H as <- _. simpl. eapply G, Eh.
Qed.

Lemma decoded_shape_nonneg_witness :
  Forall (fun d => 0 <= d) (elems (header.Shape (header.mk (Some [2; 3]) Int32 true))).
Proof.
  apply (proj1 decoded_shape_nonneg
           (str "{'descr': '<i4', 'fortran_order': True, 'shape': (2, 3), }")).
  reflexivity.
Defined.

(** ** Unrecognised dtypes *)

Lemma parseDims_no_panic (parts : list bytes) (acc : list Z) (m : string) :
  parseDims parts acc <> Panic m.
Proof.
  revert acc. induction parts as [|p parts IH]; intros acc; simpl; [discriminate|].
  destruct (bytes_eqb (TrimSpace p) []); [apply IH|].
  destruct (Atoi (TrimSpace p)); [apply IH|discriminate].
Qed.

Lemma parseHeader_no_panic (headerStr : bytes) (m : string) :
  parseHeader headerStr <> Panic m.
Proof.
  unfold parseHeader.
  destruct (bytes_eqb _ []); [discriminate|].
  destruct (nth_error (FindStringSubmatch shapeRe _) 1) as [shapeStr|]; [|discriminate].
  destruct (parseDims (Split shapeStr ",") []) as [shape| |m'] eqn:Ep; try discriminate.
  2:{ exfalso. eapply parseDims_no_panic, Ep. }
  destruct (nth_error (FindStringSubmatch dtypeRe _) 1) as [dtypeStr|]; [|discriminate].
  destruct (2 <=? len dtypeStr); [|discriminate].
  destruct (typeFor (skipn 1 dtypeStr)); [|discriminate].
  destruct (nth_error (FindStringSubmatch fortranRe _) 1); discriminate.
Qed.



Lemma parseHeader_dtype (headerStr : bytes) (h : header.t) :
  parseHeader headerStr = Ok h ->
  In (header.DType h) dtypes /\
  exists dtypeStr,
    nth_error (FindStringSubmatch dtypeRe (FindString dictRe headerStr)) 1
      = Some dtypeStr /\
    typeFor (skipn 1 dtypeStr) = Some (header.DType h).
Proof.
  intros H. apply parseHeader_inv in H. cbv zeta in H.
  destruct H as (shapeStr & shape & dtypeStr & dtype & fm
                 & _ & _ & _ & Ht & _ & Hty & _ & ->).
  simpl. split; [eapply typeFor_supported, Hty|]. eauto.
Qed.




(** ** The first pass of the container decode *)

Lemma Read_bad_magic (t : GoType) (s : bytes) :
  (6 <= length s)%nat -> firstn 6 s <> magic ->
  Read t s = (Err (Errorf "invalid magic string"), skipn 6 s).
Proof.
  intros Hl Hm. unfold Read.
  rewrite (bind_ok _ _ _ _ _ (wrapErr_ok _ _ _ _ _ (ReadFull_enough 6 s Hl))).
  destruct (bytes_eqb (firstn 6 s) magic) eqn:E.
  - apply bytes_eqb_eq in E. contradiction.
  - reflexivity.
Qed.

Lemma peekHeader_length (s s' : bytes) (h : header.t) :
  peekHeader s = (Ok h, s') -> (6 <= length s)%nat.
Proof.
  unfold peekHeader, bind, wrapErr at 1, ReadFull.
  destruct (length s <? 6)%nat eqn:E; [discriminate|].
  intros _. apply Nat.ltb_ge in E. exact E.
Qed.

Lemma peekHeader_dtype (s s' : bytes) (h : header.t) :
  peekHeader s = (Ok h, s') -> In (header.DType h) dtypes.
Proof.
  intros H. unfold peekHeader, bind in H.
  destruct (wrapErr _ (ReadFull 6) s) as [[m6| |] s1]; try discriminate.
  destruct (readHeaderLen _ _ s1) as [[n| |] s2]; try discriminate.
  destruct (wrapErr _ (ReadFull _) s2) as [[hb| |] s3]; try discriminate.
  unfold wrapErr, lift in H.
  destruct (parseHeader hb) as [hdr| |] eqn:Eh; try discriminate.
  injection H as <- _. apply (parseHeader_dtype _ _ Eh).
Qed.

Lemma readAs_bad_magic (t : GoType) (msg : string) (rc : bytes) :
  (6 <= length rc)%nat -> firstn 6 rc <> magic ->
  readAs t msg rc = Err (Wrapf msg (Errorf "invalid magic string")).
Proof.
  intros Hl Hm. unfold readAs. rewrite Read_bad_magic by assumption. reflexivity.
Qed.

(** C5 (as amended).  The first pass of [ReadNPZFile] over a member reads the
    six bytes of the magic string and does not compare them: its outcome is
    the same whatever they are.  A member whose first six bytes are not the
    magic constant and that gets through the first pass is rejected by the
    second pass, by the check of [Read], with the error "invalid magic
    string"; no such member is ever decoded. *)
Theorem first_pass_ignores_magic :
  (forall m6 m6' v, length m6 = 6%nat -> length m6' = 6%nat ->
     peekHeader (m6 ++ v) = peekHeader (m6' ++ v)) /\
  (forall f hdr s', peekHeader (content f) = (Ok hdr, s') ->
     firstn 6 (content f) <> magic ->
     exists msg, readMember f = Err (Wrapf msg (Errorf "invalid magic string"))) /\
  (forall f a, firstn 6 (content f) <> magic -> readMember f <> Ok a).
Proof.
  assert (G : forall f hdr s', peekHeader (content f) = (Ok hdr, s') ->
     firstn 6 (content f) <> magic ->
     exists msg, readMember f = Err (Wrapf msg (Errorf "invalid magic string"))).
  { intros f hdr s' Hp Hm.
    pose proof (peekHeader_length _ _ _ Hp) as Hl.
    pose proof (peekHeader_dtype _ _ _ Hp) as Hd.
    unfold readMember. rewrite Hp. cbn [fst].
    rewrite !(fun t msg => readAs_bad_magic t msg _ Hl Hm).
    simpl in Hd. decompose [or] Hd; try contradiction;
      match goal with E : _ = header.DType hdr |- _ => rewrite <- E end;
      eexists; reflexivity. }
  split; [|split; [exact G|]].
  - intros m6 m6' v H6 H6'. unfold peekHeader.
    rewrite (bind_ok _ _ _ _ _ (wrapErr_ok _ _ _ _ _ (ReadFull_app_n 6 m6 v H6))).
    rewrite (bind_ok _ _ _ _ _ (wrapErr_ok _ _ _ _ _ (ReadFull_app_n 6 m6' v H6'))).
    reflexivity.
  - intros f a Hm.
    destruct (peekHeader (content f)) as [[hdr|e|m] s'] eqn:Hp.
    + destruct (G f hdr s' Hp Hm) as [msg ->]. discriminate.
    + unfold readMember. rewrite Hp. discriminate.
    + unfold readMember. rewrite Hp. discriminate.
Qed.

Lemma first_pass_ignores_magic_witness :
  peekHeader (content badMagic) = peekHeader (stream TInt32 array2) /\
  exists msg, readMember badMagic = Err (Wrapf msg (Errorf "invalid magic string")).
Proof.
  destruct first_pass_ignores_magic as (H1 & H2 & _). split.
  - apply (H1 (str "NOTNPY") magic (skipn 6 (stream TInt32 array2))); reflexivity.
  - apply (H2 badMagic (header.mk (Some [5]) Int32 false) (skipn 80 (stream TInt32 array2)));
      [vm_compute; reflexivity|vm_compute; discriminate].
Defined.

(** C5 as first stated does not hold: the first pass over a member whose
    magic string is wrong succeeds and returns the parsed header; the member
    is rejected later, by the typed read. *)
Lemma first_pass_ignores_magic_counterexample :
  firstn 6 (content badMagic) <> magic /\
  fst (peekHeader (content badMagic)) = Ok (header.mk (Some [5]) Int32 false) /\
  readMember badMagic =
    Err (Wrapf "failed to read int32 array from" (Errorf "invalid magic string")).
Proof.
  split; [vm_compute; discriminate|]. split; vm_compute; reflexivity.
Qed.

(** ** Round trip of the elements *)

Lemma to_signed_mod (w : nat) (z : Z) :
  (0 < w)%nat ->
  - 2 ^ (8 * Z.of_nat w - 1) <= z < 2 ^ (8 * Z.of_nat w - 1) ->
  to_signed w (z mod 2 ^ (8 * Z.of_nat w)) = z.
Proof.
  intros Hw Hz. unfold to_signed.
  set (n := 8 * Z.of_nat w) in *.
  assert (Hp : 2 ^ n = 2 * 2 ^ (n - 1)).
  { rewrite <- Z.pow_succ_r by lia. f_equal. lia. }
  assert (0 < 2 ^ (n - 1)) by (apply Z.pow_pos_nonneg; lia).
  destruct (Z.neg_nonneg_cases z) as [Hneg|Hpos].
  - replace (z mod 2 ^ n) with (z + 2 ^ n).
    + destruct (z + 2 ^ n <? 2 ^ (n - 1)) eqn:E; lia.
    + symmetry. rewrite <- (Z.mod_add z 1 (2 ^ n)) by lia.
      rewrite Z.mul_1_l. apply Z.mod_small. lia.
  - rewrite Z.mod_small by lia.
    destruct (z <? 2 ^ (n - 1)) eqn:E; lia.
Qed.

Lemma lor_bit_set (b n : Z) : 0 <= n -> Z.testbit b n = true -> Z.lor b (2 ^ n) = b.
Proof.
  intros Hn Hb. apply Z.bits_inj'. intros m Hm.
  rewrite Z.lor_spec, Z.pow2_bits_eqb by exact Hn.
  destruct (Z.eqb_spec n m) as [<-|_].
  - rewrite Hb. reflexivity.
  - apply orb_false_r.
Qed.

(** [quiet32] changes signalling NaNs only. *)
Lemma quiet32_id (b : Z) : signalling TFloat32 b = false -> quiet32 b = b.
Proof.
  unfold quiet32. cbn [signalling]. destruct (isNaN32 b); [|reflexivity].
  cbn [andb]. intros H. apply negb_false_iff in H.
  apply lor_bit_set; [lia|exact H].
Qed.

Lemma getLE_putLE (t : GoType) (v : goVal t) :
  inRange t v -> signalling t v = false -> getLE t (putLE t v) = v.
Proof.
  destruct t; cbn [inRange getLE putLE goVal] in *; intros H Hq;
    try (rewrite le_val_le_bytes;
         first [ apply to_signed_mod; [lia|simpl; lia]
               | apply Z.mod_small; simpl; lia
               | rewrite Z.mod_small by (simpl; lia); apply quiet32_id, Hq ]).
  destruct v; reflexivity.
Qed.

Lemma map_getLE_putLE (t : GoType) (data : list (goVal t)) :
  Forall (inRange t) data -> Forall (fun v => signalling t v = false) data ->
  map (fun v => getLE t (putLE t v)) data = data.
Proof.
  induction 1 as [|v data Hv _ IH]; intros Hq; [reflexivity|].
  inversion Hq as [|? ? Hqv Hq']. subst.
  simpl. rewrite getLE_putLE by assumption. f_equal. apply IH, Hq'.
Qed.

Lemma length_putLE (t : GoType) (v : goVal t) : length (putLE t v) = width t.
Proof. destruct t; reflexivity. Qed.

Lemma chunks_concat (t : GoType) (data : list (goVal t)) (rest : bytes) :
  chunks (width t) (length data) (concat (map (putLE t) data) ++ rest)
  = map (putLE t) data.
Proof.
  induction data as [|v data IH]; [reflexivity|].
  cbn [length chunks map concat]. rewrite <- app_assoc.
  rewrite <- (length_putLE t v).
  rewrite take_app_length, drop_app_length.
  rewrite length_putLE. f_equal. exact IH.
Qed.

Lemma length_concat_putLE (t : GoType) (data : list (goVal t)) :
  length (concat (map (putLE t) data)) = (length data * width t)%nat.
Proof.
  induction data as [|v data IH]; [reflexivity|].
  cbn [map concat length]. rewrite length_app, length_putLE, IH. lia.
Qed.


(** ** Round trip of the shape text *)

Lemma formatDims_pos (dims : list Z) (i : nat) (acc : bytes) :
  (0 < i)%nat -> formatDims i dims acc = acc ++ tailText dims.
Proof.
  revert i acc. induction dims as [|d dims IH]; intros i acc Hi; simpl.
  - rewrite app_nil_r. reflexivity.
  - destruct (0 <? i)%nat eqn:E; [|apply Nat.ltb_ge in E; lia].
    rewrite IH by lia. unfold tailText. simpl.
    repeat rewrite <- app_assoc. reflexivity.
Qed.

Lemma formatDims_0 (shape : list Z) (acc : bytes) :
  formatDims 0 shape acc = acc ++ dimsText shape.
Proof.
  destruct shape as [|d dims]; simpl.
  - rewrite app_nil_r. reflexivity.
  - rewrite formatDims_pos by lia. rewrite <- app_assoc. reflexivity.
Qed.

Lemma generateHeader_text {T} (arr : Array.t T) :
  generateHeader arr =
    str "{'descr': '" ++ dtypeStr_of (Array.DType arr)
      ++ str "', 'fortran_order': "
      ++ (if Array.Fortran arr then str "True" else str "False")
      ++ str ", 'shape': (" ++ shapeInner (elems (Array.Shape arr)) ++ str "), }".
Proof.
  unfold generateHeader, shapeInner. rewrite formatDims_0.
  destruct (elems (Array.Shape arr)) as [|d [|d' dims]]; cbn [length Nat.eqb Nat.leb];
    repeat rewrite <- app_assoc; reflexivity.
Qed.

Lemma Split_nosep (sep : ascii) (a : bytes) :
  Forall (fun c => c <> sep) a -> Split a sep = [a].
Proof.
  induction 1 as [|c a Hc _ IH]; simpl; [reflexivity|].
  apply Ascii.eqb_neq in Hc. rewrite Hc, IH. reflexivity.
Qed.

Lemma Split_app_sep (sep : ascii) (a b : bytes) :
  Forall (fun c => c <> sep) a -> Split (a ++ sep :: b) sep = a :: Split b sep.
Proof.
  induction 1 as [|c a Hc _ IH]; simpl.
  - rewrite Ascii.eqb_refl. reflexivity.
  - apply Ascii.eqb_neq in Hc. rewrite Hc, IH. reflexivity.
Qed.

Lemma isDigit_not_comma (c : ascii) : isDigit c = true -> c <> ","%char.
Proof. intros H ->. discriminate. Qed.

Lemma isDigit_not_space (c : ascii) : isDigit c = true -> isSpace c = false.
Proof. intros H. ascii_cases c. Qed.

Lemma Itoa_no_comma (d : Z) : 0 <= d -> Forall (fun c => c <> ","%char) (Itoa d).
Proof.
  intros Hd. eapply List.Forall_impl; [|apply (proj1 (Itoa_digits d Hd))].
  apply isDigit_not_comma.
Qed.

Lemma Split_tailText (dims : list Z) :
  Forall (fun d => 0 <= d) dims ->
  forall a, Forall (fun c => c <> ","%char) a ->
    Split (a ++ tailText dims) "," = a :: map (fun d => " "%char :: Itoa d) dims.
Proof.
  induction 1 as [|d dims Hd _ IH]; intros a Ha.
  - unfold tailText. simpl. rewrite app_nil_r. apply Split_nosep, Ha.
  - unfold tailText. cbn [map concat]. fold (tailText dims).
    change (str ", " ++ Itoa d) with (","%char :: " "%char :: Itoa d).
    cbn [app]. rewrite Split_app_sep by exact Ha. f_equal.
    change (" "%char :: Itoa d ++ tailText dims)
      with ((" "%char :: Itoa d) ++ tailText dims).
    apply IH. constructor; [discriminate|apply Itoa_no_comma, Hd].
Qed.

Lemma trimLeft_digits (s : bytes) :
  Forall (fun c => isDigit c = true) s -> trimLeft s = s.
Proof.
  destruct 1 as [|c s Hc _]; simpl; [reflexivity|].
  rewrite (isDigit_not_space c Hc). reflexivity.
Qed.

Lemma TrimSpace_digits (s : bytes) :
  Forall (fun c => isDigit c = true) s -> TrimSpace s = s.
Proof.
  intros H. unfold TrimSpace. rewrite (trimLeft_digits s H).
  rewrite trimLeft_digits by (apply Forall_rev, H). apply rev_involutive.
Qed.

Lemma parseDims_part (d : Z) (part : bytes) (rest : list bytes) (acc : list Z) :
  0 <= d < 2 ^ 63 -> TrimSpace part = Itoa d ->
  parseDims (part :: rest) acc = parseDims rest (acc ++ [d]).
Proof.
  intros Hd E. cbn [parseDims]. rewrite E.
  destruct (Itoa_digits d) as [_ Hne]; [lia|].
  destruct (bytes_eqb (Itoa d) []) eqn:Eb.
  { apply bytes_eqb_eq in Eb. contradiction. }
  rewrite Atoi_Itoa by exact Hd. reflexivity.
Qed.

Lemma parseDims_tail (dims : list Z) :
  Forall (fun d => 0 <= d < 2 ^ 63) dims ->
  forall acc, parseDims (map (fun d => " "%char :: Itoa d) dims) acc = Ok (acc ++ dims).
Proof.
  induction 1 as [|d dims Hd _ IH]; intros acc; cbn [map].
  - simpl. rewrite app_nil_r. reflexivity.
  - rewrite (parseDims_part d) by
      (try exact Hd; apply (TrimSpace_digits (Itoa d)), Itoa_digits; lia).
    rewrite IH, <- app_assoc. reflexivity.
Qed.

Lemma parseDims_shapeInner (shape : list Z) :
  Forall (fun d => 0 <= d < 2 ^ 63) shape ->
  parseDims (Split (shapeInner shape) ",") [] = Ok shape.
Proof.
  intros H. unfold shapeInner. destruct H as [|d dims Hd Hdims]; [reflexivity|].
  assert (Hnn : Forall (fun d => 0 <= d) dims).
  { eapply List.Forall_impl; [|exact Hdims]. simpl. intros; lia. }
  assert (Htrim : TrimSpace (Itoa d) = Itoa d).
  { apply TrimSpace_digits, Itoa_digits. lia. }
  destruct dims as [|d' dims]; cbn [length Nat.leb dimsText].
  - unfold tailText. simpl concat. rewrite app_nil_r.
    change (Itoa d ++ str ",") with (Itoa d ++ ","%char :: []).
    rewrite Split_app_sep by (apply Itoa_no_comma; lia).
    cbn [Split]. rewrite (parseDims_part d) by assumption. reflexivity.
  - rewrite app_nil_r, Split_tailText by (try exact Hnn; apply Itoa_no_comma; lia).
    rewrite (parseDims_part d) by assumption.
    apply parseDims_tail, Hdims.
Qed.

Lemma shapeInner_cls (shape : list Z) :
  Forall (fun d => 0 <= d) shape ->
  Forall (fun c => shapeCls c = true) (shapeInner shape).
Proof.
  intros H. unfold shapeInner. apply Forall_app. split.
  - destruct H as [|d dims Hd Hdims]; [constructor|]. cbn [dimsText].
    apply Forall_app. split.
    + eapply List.Forall_impl; [|apply (proj1 (Itoa_digits d Hd))].
      apply isDigit_shapeCls.
    + unfold tailText. induction Hdims as [|d' dims Hd' _ IH]; [constructor|].
      cbn [map concat]. apply Forall_app. split; [|exact IH].
      apply Forall_app. split; [repeat constructor|].
      eapply List.Forall_impl; [|apply (proj1 (Itoa_digits d' Hd'))].
      apply isDigit_shapeCls.
  - destruct (length shape <=? 1)%nat; repeat constructor.
Qed.

(** ** Matching the header that [generateHeader] writes *)

Lemma star_greedy {R} (cls : ascii -> bool) (k : bytes -> bytes -> option R)
    (a b acc : bytes) (x : R) :
  Forall (fun c => cls c = true) a ->
  star cls (acc ++ a) k b = Some x ->
  star cls acc k (a ++ b) = Some x.
Proof.
  intros Ha. revert acc. induction Ha as [|c a Hc _ IH]; intros acc H.
  - rewrite app_nil_r in H. exact H.
  - cbn [app star]. rewrite Hc. rewrite (IH (acc ++ [c])); [reflexivity|].
    rewrite <- app_assoc. exact H.
Qed.

Lemma star_none {R} (cls : ascii -> bool) (k : bytes -> bytes -> option R)
    (s : bytes) :
  (forall acc p t, s = p ++ t -> k acc t = None) ->
  forall acc, star cls acc k s = None.
Proof.
  induction s as [|c s IH]; intros Hk acc; simpl.
  - apply (Hk acc [] []). reflexivity.
  - assert (E : k acc (c :: s) = None) by (apply (Hk acc [] (c :: s)); reflexivity).
    destruct (cls c); [|exact E].
    rewrite IH; [exact E|].
    intros acc' p t ->. apply (Hk acc' (c :: p) t). reflexivity.
Qed.

Lemma find_here (r : regex) (s : bytes) (x : bytes * option bytes) :
  matchAt r s = Some x -> find r s = Some x.
Proof. intros H. destruct s; simpl; rewrite H; reflexivity. Qed.

Lemma find_skip (r : regex) (c : ascii) (s : bytes) :
  matchAt r (c :: s) = None -> find r (c :: s) = find r s.
Proof. intros H. simpl. rewrite H. reflexivity. Qed.

(** The padding never holds a closing brace. *)
Lemma padding_no_brace {R} (n : nat) (acc p t : bytes) (f : bytes -> R) :
  repeat " "%char n ++ ["010"%char] = p ++ t ->
  match stripPrefix (str "}") t with
  | Some _ => Some (f acc)
  | None => None
  end = None.
Proof.
  revert p. induction n as [|n IH]; intros p H.
  - destruct p as [|c p]; simpl in H.
    + subst t. reflexivity.
    + injection H as _ H. destruct p; [|discriminate]. simpl in H. subst t. reflexivity.
  - destruct p as [|c p]; simpl in H.
    + subst t. reflexivity.
    + injection H as _ H. apply (IH p H).
Qed.

Lemma find_dict (b : bytes) (n : nat) :
  Forall (fun c => anyButNL c = true) b ->
  find dictRe (("{"%char :: b ++ ["}"%char]) ++ repeat " "%char n ++ ["010"%char])
  = Some ("{"%char :: b ++ ["}"%char], None).
Proof.
  intros Hb. apply find_here.
  unfold matchAt, dictRe. cbn [run str list_ascii_of_string app stripPrefix].
  rewrite Ascii.eqb_refl.
  rewrite <- app_assoc.
  apply star_greedy; [exact Hb|].
  cbn [app star]. change (anyButNL "}") with true. cbv iota.
  rewrite star_none.
  - cbn [stripPrefix]. rewrite Ascii.eqb_refl. reflexivity.
  - intros acc p t H. cbn [stripPrefix].
    pose proof (padding_no_brace n acc p t (fun a => a) H) as G.
    cbn [str list_ascii_of_string stripPrefix] in G.
    destruct t as [|c t]; [reflexivity|].
    destruct (Ascii.eqb "}" c); [discriminate|reflexivity].
Qed.

Lemma matchAt_shapeRe (inner rest : bytes) :
  Forall (fun c => shapeCls c = true) inner ->
  matchAt shapeRe (str "'shape': (" ++ inner ++ ")"%char :: rest)
  = Some (str "'shape': (" ++ inner ++ str ")", Some inner).
Proof.
  intros Hi. unfold matchAt, shapeRe.
  cbn [run str list_ascii_of_string app stripPrefix Ascii.eqb Bool.eqb star].
  change (reSpace " ") with true. change (reSpace "(") with false. cbv iota.
  cbn [run str list_ascii_of_string app stripPrefix Ascii.eqb Bool.eqb star].
  erewrite star_greedy; [reflexivity|exact Hi|].
  cbn [app star]. change (shapeCls ")") with false. cbv iota.
  cbn [stripPrefix Ascii.eqb Bool.eqb]. reflexivity.
Qed.

Ltac skip_to_match :=
  repeat (rewrite find_skip by reflexivity); apply find_here.

Lemma find_shape_header (tok : bytes) (fortran : bool) (inner : bytes) :
  In tok tokens -> Forall (fun c => shapeCls c = true) inner ->
  find shapeRe (headerText tok fortran inner)
  = Some (str "'shape': (" ++ inner ++ str ")", Some inner).
Proof.
  intros Ht Hi. unfold headerText.
  simpl in Ht. decompose [or] Ht; try contradiction; subst tok; destruct fortran;
    cbn [str list_ascii_of_string app];
    skip_to_match; apply (matchAt_shapeRe inner (str ", }") Hi).
Qed.

Lemma find_dtype_header (tok : bytes) (fortran : bool) (inner : bytes) :
  In tok tokens ->
  find dtypeRe (headerText tok fortran inner)
  = Some (str "'descr': '" ++ tok ++ str "'", Some tok).
Proof.
  intros Ht. unfold headerText.
  simpl in Ht. decompose [or] Ht; try contradiction; subst tok; destruct fortran;
    cbn [str list_ascii_of_string app];
    skip_to_match; reflexivity.
Qed.

Lemma find_fortran_header (tok : bytes) (fortran : bool) (inner : bytes) :
  In tok tokens ->
  find fortranRe (headerText tok fortran inner)
  = Some (str "'fortran_order': " ++ (if fortran then str "True" else str "False"),
          Some (if fortran then str "True" else str "False")).
Proof.
  intros Ht. unfold headerText.
  simpl in Ht. decompose [or] Ht; try contradiction; subst tok; destruct fortran;
    cbn [str list_ascii_of_string app];
    skip_to_match; reflexivity.
Qed.

Lemma typeFor_dtypeStr_of (d : DType) :
  In d dtypes ->
  (2 <=? len (dtypeStr_of d)) = true /\ typeFor (skipn 1 (dtypeStr_of d)) = Some d.
Proof.
  intros H. simpl in H. decompose [or] H; try contradiction; subst d;
    split; reflexivity.
Qed.

Lemma headerText_braces (tok : bytes) (fortran : bool) (inner : bytes) :
  exists b, headerText tok fortran inner = "{"%char :: b ++ ["}"%char].
Proof.
  exists (str "'descr': '" ++ tok ++ str "', 'fortran_order': "
            ++ (if fortran then str "True" else str "False")
            ++ str ", 'shape': (" ++ inner ++ str "), ").
  unfold headerText. repeat rewrite <- app_assoc. reflexivity.
Qed.

(** Decoding the padded header of an array gives back its shape, dtype and
    layout. *)
Lemma parseHeader_padHeader {T} (arr : Array.t T) (shape : list Z) :
  Array.Shape arr = Some shape ->
  Forall (fun d => 0 <= d < 2 ^ 63) shape ->
  In (Array.DType arr) dtypes ->
  parseHeader (padHeader (generateHeader arr))
  = Ok (header.mk (Some shape) (Array.DType arr) (Array.Fortran arr)).
Proof.
  intros Hs Hshape Hd.
  pose proof (generateHeader_no_newline arr) as Hnl.
  pose proof (dtypeStr_of_token (Array.DType arr)) as Htok.
  destruct (typeFor_dtypeStr_of _ Hd) as [Hlen Hty].
  assert (Hcls : Forall (fun c => shapeCls c = true) (shapeInner shape)).
  { apply shapeInner_cls. eapply List.Forall_impl; [|exact Hshape]. simpl. intros; lia. }
  rewrite generateHeader_text, Hs in *. cbn [elems] in *.
  fold (headerText (dtypeStr_of (Array.DType arr)) (Array.Fortran arr)
                   (shapeInner shape)) in *.
  set (h := headerText _ _ _) in *.
  destruct (headerText_braces (dtypeStr_of (Array.DType arr)) (Array.Fortran arr)
              (shapeInner shape)) as [b Hb].
  fold h in Hb.
  assert (Hdict : FindString dictRe (padHeader h) = h).
  { unfold FindString, padHeader, Repeat. rewrite Hb.
    change (str "
") with ["010"%char].
    rewrite find_dict; [reflexivity|].
    rewrite Hb in Hnl. inversion Hnl as [|? ? _ Hnl']. subst.
    apply Forall_app in Hnl'. apply Hnl'. }
  unfold parseHeader. rewrite Hdict.
  assert (Hne : bytes_eqb h [] = false) by (rewrite Hb; reflexivity).
  rewrite Hne. unfold FindStringSubmatch, h.
  rewrite find_shape_header, find_dtype_header, find_fortran_header by assumption.
  cbn [nth_error]. rewrite parseDims_shapeInner by assumption.
  rewrite Hlen, Hty. do 3 f_equal.
  destruct (Array.Fortran arr); reflexivity.
Qed.

(** ** Round trip *)

Lemma dtypes_nonempty (d : DType) : In d dtypes -> String.eqb d "" = false.
Proof.
  intros H. simpl in H. decompose [or] H; try contradiction; subst d; reflexivity.
Qed.



(** ** Headers of 65536 bytes and more *)













(** * Further properties of the package *)

(** ** The container as a map *)

Lemma GoType_eq_dec_refl (t : GoType) : GoType_eq_dec t t = left eq_refl.
Proof.
  destruct (GoType_eq_dec t t) as [e|n]; [|contradiction].
  f_equal. apply Eqdep_dec.UIP_dec, GoType_eq_dec.
Qed.

(** X1. [Add] then [Get]: an array added under a name at an element type is
    returned by [Get] at that type and name, and is not found at any other
    type; entries under other names are unchanged, so adding under a name that
    is present replaces that entry only. *)
Theorem Add_Get (t u : GoType) (npz : NPZFile) (name name' : string)
    (p : option (Array.t (goVal t))) :
  Get t (Add t npz name p) name = (p, true) /\
  (u <> t -> Get u (Add t npz name p) name = (None, false)) /\
  (name <> name' -> Get u (Add t npz name p) name' = Get u npz name').
Proof.
  unfold Get, Add. cbn [arrays]. split; [|split].
  - rewrite lookup_insert_eq, GoType_eq_dec_refl. reflexivity.
  - intros Hne. rewrite lookup_insert_eq.
    destruct (GoType_eq_dec t u) as [e|_]; [congruence|reflexivity].
  - intros Hne. rewrite lookup_insert_ne by exact Hne. reflexivity.
Qed.

Lemma Add_Get_witness :
  Get TFloat64 (Add TInt32 npzDemo "array1" (Some array2)) "array1" = (None, false) /\
  Get TFloat64 (Add TInt32 npzDemo "array3" (Some array2)) "array1"
  = Get TFloat64 npzDemo "array1".
Proof.
  split.
  - apply (Add_Get TInt32 TFloat64 npzDemo "array1" "array1"). discriminate.
  - apply (Add_Get TInt32 TFloat64 npzDemo "array3" "array1"). discriminate.
Defined.

(** X2. [Keys] lists every name of the container exactly once: a name is in
    the list exactly when the container has an entry under it, the list has
    no duplicates, a new container has no keys, and adding under a fresh name
    adds that name to the keys and no other. *)
Theorem Keys_names (npz : NPZFile) :
  NoDup (Keys npz) /\
  (forall name, name ∈ Keys npz <-> is_Some (arrays npz !! name)) /\
  Keys NewNPZFile = [] /\
  (forall t name p, arrays npz !! name = None ->
     Keys (Add t npz name p) ≡ₚ name :: Keys npz).
Proof.
  unfold Keys. split; [|split; [|split]].
  - apply NoDup_fst_map_to_list.
  - intros name. rewrite list_elem_of_fmap. split.
    + intros [[k a] [-> H]]. apply elem_of_map_to_list in H. simpl. eauto.
    + intros [a H]. exists (name, a). split; [reflexivity|].
      apply elem_of_map_to_list, H.
  - reflexivity.
  - intros t name p Hn. unfold Add. cbn [arrays].
    rewrite (map_to_list_insert _ _ _ Hn). reflexivity.
Qed.

Lemma Keys_names_witness :
  Keys (Add TInt32 npzDemo "array3" (Some array2)) ≡ₚ "array3" :: Keys npzDemo.
Proof.
  apply (Keys_names npzDemo). reflexivity.
Defined.

(** ** Rejected streams *)

Lemma ReadFull_short (n : nat) (s : bytes) :
  (length s < n)%nat -> exists e, ReadFull n s = (Err e, []).
Proof.
  intros H. unfold ReadFull. apply Nat.ltb_lt in H. rewrite H. eauto.
Qed.

(** X3. [Read] accepts no stream that does not begin with the magic string:
    it returns an error, and when six bytes could be read the error is
    "invalid magic string" and nothing after those six bytes has been read. *)
Theorem Read_requires_magic (t : GoType) (s : bytes) :
  firstn 6 s <> magic ->
  isErr (fst (Read t s)) /\
  ((6 <= length s)%nat ->
     Read t s = (Err (Errorf "invalid magic string"), skipn 6 s)).
Proof.
  intros Hm. split.
  - destruct (le_lt_dec 6 (length s)) as [Hl|Hl].
    + rewrite Read_bad_magic by assumption. eexists; reflexivity.
    + unfold Read, bind, wrapErr at 1.
      destruct (ReadFull_short 6 s Hl) as [e ->]. eexists; reflexivity.
  - intros Hl. apply Read_bad_magic; assumption.
Qed.

Lemma Read_requires_magic_witness :
  Read TFloat64 (str "This is not a valid NPY file")
  = (Err (Errorf "invalid magic string"), str "s not a valid NPY file").
Proof.
  apply (Read_requires_magic TFloat64 (str "This is not a valid NPY file"));
    [discriminate|vm_compute; lia].
Defined.

Lemma binary_Read_uint_byte (b : ascii) (rest : bytes) :
  binary_Read_uint 1 (b :: rest) = (Ok (byteZ b), rest).
Proof.
  unfold binary_Read_uint, bind, ReadFull, ret. simpl. f_equal. f_equal. lia.
Qed.

(** X4. A major version other than 1 and 2 is rejected, by [Read] and by the
    first pass of [ReadNPZFile] alike, as soon as the two version bytes are
    read: the header length and the header are not looked at. *)
Theorem unsupported_version (t : GoType) (m6 : bytes) (major minor : ascii)
    (rest : bytes) :
  byteZ major <> 1 -> byteZ major <> 2 -> length m6 = 6%nat ->
  Read t (magic ++ major :: minor :: rest)
  = (Err (Errorf "unsupported version"), rest) /\
  peekHeader (m6 ++ major :: minor :: rest)
  = (Err (Errorf "unsupported version in"), rest).
Proof.
  intros H1 H2 H6.
  assert (E : forall f i, readHeaderLen f i (major :: minor :: rest)
                          = (Err (Errorf ("unsupported version" ++ i)), rest)).
  { intros f i. unfold readHeaderLen.
    rewrite (bind_ok _ _ _ _ _ (wrapErr_ok _ _ _ _ _ (binary_Read_uint_byte major _))).
    rewrite (bind_ok _ _ _ _ _ (wrapErr_ok _ _ _ _ _ (binary_Read_uint_byte minor _))).
    destruct (byteZ major =? 1) eqn:E1; [lia|].
    destruct (byteZ major =? 2) eqn:E2; [lia|]. reflexivity. }
  split.
  - unfold Read.
    rewrite (bind_ok _ _ _ _ _ (wrapErr_ok _ _ _ _ _ (ReadFull_app_n 6 magic _ eq_refl))).
    rewrite bytes_eqb_refl. cbn [negb]. unfold bind at 1. rewrite E. reflexivity.
  - unfold peekHeader.
    rewrite (bind_ok _ _ _ _ _ (wrapErr_ok _ _ _ _ _ (ReadFull_app_n 6 m6 _ H6))).
    unfold bind at 1. rewrite E. reflexivity.
Qed.

Lemma unsupported_version_witness :
  Read TFloat64 (magic ++ "003"%char :: "000"%char :: str "F")
  = (Err (Errorf "unsupported version"), str "F").
Proof.
  apply (unsupported_version TFloat64 magic "003" "000" (str "F"));
    [discriminate|discriminate|reflexivity].
Defined.

(** ** The dtype tables *)

(** X5. The two dtype tables are inverse to each other: the code that
    [parseHeader] looks up is, for each of the eleven dtypes, the token that
    [generateHeader] writes without its first character, and no other dtype
    has that code.  The digit of the token written for the dtype of an
    element type is the number of bytes of an element. *)
Theorem dtype_tables_inverse :
  (forall d, In d dtypes -> typeFor (skipn 1 (dtypeStr_of d)) = Some d) /\
  (forall code d, typeFor code = Some d ->
     In d dtypes /\ skipn 1 (dtypeStr_of d) = code) /\
  (forall t, skipn 2 (dtypeStr_of (dtypeName t)) = Itoa (Z.of_nat (width t))).
Proof.
  split; [|split].
  - intros d H. apply (typeFor_dtypeStr_of d H).
  - intros code d H. unfold typeFor in H.
    repeat match type of H with
           | context [bytes_eqb code ?x] =>
               let E := fresh in
               destruct (bytes_eqb code x) eqn:E;
               [apply bytes_eqb_eq in E; injection H as <-; subst code;
                split; [simpl; tauto|reflexivity]|]
           end.
    discriminate.
  - intros t. destruct t; reflexivity.
Qed.

Lemma dtype_tables_inverse_witness :
  typeFor (skipn 1 (dtypeStr_of Uint16)) = Some Uint16 /\
  skipn 1 (dtypeStr_of Float32) = str "f4".
Proof.
  destruct dtype_tables_inverse as (H1 & H2 & _). split.
  - apply H1. simpl. tauto.
  - apply (H2 (str "f4") Float32). reflexivity.
Defined.

(** ** The size of the stream *)

(** X6. A successful [Write] appends 10 bytes of envelope, the padded header
    and [width] bytes for each element, and nothing else; the elements start
    at a multiple of 16 bytes from the start of what it wrote. *)
Theorem Write_stream_size (t : GoType) (arr : Array.t (goVal t)) (w w' : bytes) :
  Write t arr w = (Ok tt, w') ->
  let p := padHeader (generateHeader arr) in
  exists envelope body,
    w' = w ++ envelope ++ body /\
    len envelope = 10 + len p /\
    len envelope mod 16 = 0 /\
    body = concat (map (putLE t) (elems (Array.Data arr))) /\
    len body = len (elems (Array.Data arr)) * Z.of_nat (width t).
Proof.
  intros HW p. rewrite Write_cases in HW.
  assert (E : w' = w ++ stream t arr).
  { destruct (Array.Data arr); [|discriminate].
    destruct (Array.Shape arr); [|discriminate].
    destruct (String.eqb _ _); [discriminate|].
    destruct (_ =? _); [|discriminate]. congruence. }
  exists (magic ++ le_bytes 1 1 ++ le_bytes 1 0 ++ le_bytes 2 (uint16 (len p)) ++ p),
         (concat (map (putLE t) (elems (Array.Data arr)))).
  assert (L : len (magic ++ le_bytes 1 1 ++ le_bytes 1 0
                     ++ le_bytes 2 (uint16 (len p)) ++ p) = 10 + len p).
  { rewrite !len_app. unfold len at 1 2 3 4. rewrite !length_le_bytes.
    change (length magic) with 6%nat. lia. }
  split; [|split; [exact L|split; [|split; [reflexivity|]]]].
  - rewrite E. unfold stream. fold p. repeat rewrite <- app_assoc. reflexivity.
  - rewrite L. unfold p. rewrite len_padHeader.
    apply (paddingLen_range (generateHeader arr)).
  - unfold len. rewrite length_concat_putLE. lia.
Qed.

Lemma Write_stream_size_witness :
  exists envelope body,
    stream TInt32 array2 = [] ++ envelope ++ body /\
    len envelope = 10 + len (padHeader (generateHeader array2)) /\
    len envelope mod 16 = 0 /\
    body = concat (map (putLE TInt32) (elems (Array.Data array2))) /\
    len body = len (elems (Array.Data array2)) * Z.of_nat (width TInt32).
Proof.
  apply (Write_stream_size TInt32 array2 [] (stream TInt32 array2)). reflexivity.
Defined.

(** ** Trailing bytes and truncated streams *)

Lemma stable_ReadFull (n : nat) : stable (ReadFull n).
Proof.
  intros s x. unfold ReadFull.
  destruct (length s <? n)%nat eqn:E; [exact I|].
  apply Nat.ltb_ge in E.
  rewrite length_app.
  destruct (length s + length x <? n)%nat eqn:E'; [apply Nat.ltb_lt in E'; lia|].
  rewrite take_app_le, drop_app_le by lia. reflexivity.
Qed.

Lemma stable_ret {A} (a : A) : stable (ret a).
Proof. intros s x. reflexivity. Qed.

Lemma stable_fail {A} (e : error) : stable (@fail bytes A e).
Proof. intros s x. exact I. Qed.

Lemma stable_panic {A} (m : string) : stable (@panic bytes A m).
Proof. intros s x. reflexivity. Qed.

Lemma stable_lift {A} (r : result A) : stable (lift r).
Proof. intros s x. unfold lift. destruct r; [reflexivity|exact I|reflexivity]. Qed.

Lemma stable_wrapErr {A} (msg : string) (c : IO A) : stable c -> stable (wrapErr msg c).
Proof.
  intros H s x. specialize (H s x). unfold wrapErr.
  destruct (c s) as [[a|e|m] r]; [rewrite H; reflexivity|exact I|rewrite H; reflexivity].
Qed.

Lemma stable_bind {A B} (c : IO A) (k : A -> IO B) :
  stable c -> (forall a, stable (k a)) -> stable (bind c k).
Proof.
  intros Hc Hk s x. specialize (Hc s x). unfold bind.
  destruct (c s) as [[a|e|m] r].
  - rewrite Hc. apply Hk.
  - exact I.
  - rewrite Hc. reflexivity.
Qed.

Lemma stable_if {A} (b : bool) (c1 c2 : IO A) :
  stable c1 -> stable c2 -> stable (if b then c1 else c2).
Proof. destruct b; auto. Qed.

Lemma stable_readHeaderLen (from in_ : string) : stable (readHeaderLen from in_).
Proof.
  unfold readHeaderLen, binary_Read_uint.
  repeat first
    [ apply stable_bind; [|intros ?]
    | apply stable_wrapErr
    | apply stable_if
    | apply stable_ReadFull
    | apply stable_ret
    | apply stable_fail ].
Qed.

Lemma stable_Read (t : GoType) : stable (Read t).
Proof.
  unfold Read, readData, binary_Read_slice.
  repeat first
    [ apply stable_bind; [|intros ?]
    | apply stable_wrapErr
    | apply stable_if
    | apply stable_ReadFull
    | apply stable_readHeaderLen
    | apply stable_lift
    | apply stable_panic
    | apply stable_ret
    | apply stable_fail ].
Qed.

(** X7. [Read] does not look past the array: when it returns an array, or
    panics, on a stream, it does the same on that stream followed by any
    further bytes, and leaves exactly those further bytes more unread. *)
Theorem Read_ignores_trailing (t : GoType) (s x r : bytes) :
  (forall arr, Read t s = (Ok arr, r) -> Read t (s ++ x) = (Ok arr, r ++ x)) /\
  (forall m, Read t s = (Panic m, r) -> Read t (s ++ x) = (Panic m, r ++ x)).
Proof.
  pose proof (stable_Read t s x) as H.
  split; intros a E; rewrite E in H; exact H.
Qed.

Lemma Read_ignores_trailing_witness :
  Read TInt32 (stream TInt32 array2 ++ str "more") = (Ok array2, [] ++ str "more").
Proof.
  apply (Read_ignores_trailing TInt32 (stream TInt32 array2) (str "more") []).
  reflexivity.
Defined.

(** X8. A truncated stream is rejected: when [Read] decodes a stream to its
    last byte, it returns an error (no array, and no panic) on every proper
    prefix of that stream. *)
Theorem Read_truncated (t : GoType) (s : bytes) (arr : Array.t (goVal t)) (n : nat) :
  Read t s = (Ok arr, []) -> (n < length s)%nat ->
  isErr (fst (Read t (firstn n s))).
Proof.
  intros HR Hn.
  pose proof (stable_Read t (firstn n s) (skipn n s)) as H.
  rewrite take_drop, HR in H.
  assert (Hne : skipn n s <> []).
  { intros E. apply (f_equal (@length ascii)) in E.
    rewrite length_drop in E. simpl in E. lia. }
  destruct (Read t (firstn n s)) as [[a|e|m] r].
  - injection H as _ H. symmetry in H. apply app_eq_nil in H. tauto.
  - eexists. reflexivity.
  - discriminate.
Qed.

Lemma Read_truncated_witness :
  isErr (fst (Read TInt32 (firstn 99 (stream TInt32 array2)))).
Proof.
  apply (Read_truncated TInt32 (stream TInt32 array2) array2 99);
    [reflexivity|vm_compute; lia].
Defined.

(** ** What [Read] returns *)

Lemma length_chunks (w n : nat) (bs : bytes) : length (chunks w n bs) = n.
Proof. revert bs. induction n as [|n IH]; intros bs; simpl; [|rewrite IH]; reflexivity. Qed.

Lemma readHeaderLen_ok_indep (f i f' i' : string) (s r : bytes) (n : Z) :
  readHeaderLen f i s = (Ok n, r) -> readHeaderLen f' i' s = (Ok n, r).
Proof.
  unfold readHeaderLen, bind, wrapErr.
  destruct (binary_Read_uint 1 s) as [[major| |] s1]; try discriminate.
  destruct (binary_Read_uint 1 s1) as [[minor| |] s2]; try discriminate.
  destruct (major =? 1).
  - destruct (binary_Read_uint 2 s2) as [[v| |] s3]; try discriminate. auto.
  - destruct (major =? 2); [|discriminate].
    destruct (binary_Read_uint 4 s2) as [[v| |] s3]; try discriminate. auto.
Qed.

(** The steps of a successful [Read]. *)
Lemma Read_ok_inv (t : GoType) (s r : bytes) (arr : Array.t (goVal t)) :
  Read t s = (Ok arr, r) ->
  exists headerStr hdr r' data,
    parseHeader headerStr = Ok hdr /\
    peekHeader s = (Ok hdr, r') /\
    arr = Array.mk (Some data) (header.Shape hdr) (header.DType hdr)
                   (header.Fortran hdr) /\
    0 <= totalElements (elems (header.Shape hdr)) /\
    len data = totalElements (elems (header.Shape hdr)).
Proof.
  intros H. unfold Read, bind in H. unfold peekHeader, bind.
  destruct (ReadFull 6 s) as [[m6| |] s1] eqn:E6;
    unfold wrapErr at 1 in H; unfold wrapErr at 1; rewrite E6 in *; try discriminate.
  destruct (negb _); [discriminate|].
  destruct (readHeaderLen "" "" s1) as [[n| |] s2] eqn:En; try discriminate.
  rewrite (readHeaderLen_ok_indep _ _ " from" " in" _ _ _ En).
  destruct (ReadFull (Z.to_nat n) s2) as [[hb| |] s3] eqn:Eh;
    unfold wrapErr at 1 in H; unfold wrapErr at 1; rewrite Eh in *; try discriminate.
  unfold wrapErr at 1, lift in H. unfold wrapErr, lift.
  destruct (parseHeader hb) as [hdr| |] eqn:Ep; try discriminate.
  unfold readData, binary_Read_slice, bind, panic in H.
  destruct (totalElements (elems (header.Shape hdr)) <? 0) eqn:Et.
  { unfold wrapErr in H. discriminate. }
  unfold wrapErr in H.
  destruct (ReadFull (Z.to_nat (totalElements (elems (header.Shape hdr))) * width t) s3)
    as [[bs| |] s4] eqn:Ed; try discriminate.
  unfold ret in H. injection H as <- <-.
  eexists hb, hdr, s3, _. split; [exact Ep|]. split; [reflexivity|].
  split; [reflexivity|]. split; [lia|].
  unfold len. rewrite length_map, length_chunks. lia.
Qed.

Lemma parseHeader_shape (headerStr : bytes) (h : header.t) :
  parseHeader headerStr = Ok h ->
  exists shape, header.Shape h = Some shape /\ Forall (fun d => 0 <= d) shape.
Proof.
  intros H. apply parseHeader_inv in H. cbv zeta in H.
  destruct H as (shapeStr & shape & dtypeStr & dtype & fm & _ & Hs & Hp & _ & _ & _ & _ & ->).
  apply FindStringSubmatch_group in Hs. destruct Hs as (m & cap & Hf & ->).
  apply shapeRe_group in Hf. destruct Hf as (g & -> & Hg).
  exists shape. split; [reflexivity|].
  eapply parseDims_nonneg; [|constructor|exact Hp].
  apply Split_Forall. eapply List.Forall_impl; [|exact Hg].
  apply shapeCls_not_minus.
Qed.

(** X9. Every array that [Read] returns can be written again: its data and
    shape are not nil, the data has as many elements as the product of the
    shape that [Write] computes, and its dtype is one of the eleven constants,
    so [Write] at the same element type accepts it. *)
Theorem Read_then_Write (t : GoType) (s r w : bytes) (arr : Array.t (goVal t)) :
  Read t s = (Ok arr, r) ->
  (exists data shape,
     Array.Data arr = Some data /\ Array.Shape arr = Some shape /\
     len data = totalElements shape) /\
  Write t arr w = (Ok tt, w ++ stream t arr).
Proof.
  intros H. apply Read_ok_inv in H.
  destruct H as (hb & hdr & r' & data & Hp & _ & -> & Hnn & Hl).
  destruct (parseHeader_shape _ _ Hp) as (shape & Hs & _).
  destruct (parseHeader_dtype _ _ Hp) as [Hd _].
  rewrite Hs in *. cbn [elems] in *. split.
  - exists data, shape. auto.
  - rewrite Write_cases. cbn [Array.Data Array.Shape Array.DType].
    rewrite (dtypes_nonempty _ Hd), Hl, Z.eqb_refl. reflexivity.
Qed.

Lemma Read_then_Write_witness :
  Write TInt32 array2 (str "x") = (Ok tt, str "x" ++ stream TInt32 array2).
Proof.
  apply (Read_then_Write TInt32 (stream TInt32 array2) [] (str "x") array2).
  reflexivity.
Defined.

(** X10. A header whose dimensions multiply, in 64-bit arithmetic, to a
    negative count makes [Read] panic instead of returning an error: the
    slice of that length cannot be made. *)
Theorem Read_negative_count_panics (t : GoType) (h rest : bytes) (hdr : header.t) :
  len h < 2 ^ 16 ->
  parseHeader h = Ok hdr ->
  totalElements (elems (header.Shape hdr)) < 0 ->
  Read t (magic ++ le_bytes 1 1 ++ le_bytes 1 0 ++ le_bytes 2 (len h) ++ h ++ rest)
  = (Panic "makeslice: len out of range", rest).
Proof.
  intros Hl Hp Hneg. unfold Read.
  rewrite (bind_ok _ _ _ _ _ (wrapErr_ok _ _ _ _ _ (ReadFull_app_n 6 magic _ eq_refl))).
  rewrite bytes_eqb_refl. cbn [negb].
  rewrite (bind_ok _ _ _ _ _ (readHeaderLen_v1 _ _ 0 (len h) _)).
  rewrite Z.mod_small by (pose proof (len_nonneg h); lia).
  assert (Hh : length h = Z.to_nat (len h)) by (unfold len; lia).
  rewrite (bind_ok _ _ _ _ _ (wrapErr_ok _ _ _ _ _ (ReadFull_app_n _ h _ Hh))).
  unfold bind at 1. unfold wrapErr at 1, lift. rewrite Hp.
  unfold bind, wrapErr, readData.
  destruct (totalElements (elems (header.Shape hdr)) <? 0) eqn:E; [|lia].
  reflexivity.
Qed.

Lemma Read_negative_count_panics_witness :
  Read TFloat64
    (magic ++ le_bytes 1 1 ++ le_bytes 1 0
       ++ le_bytes 2 (len (str "{'descr': '<f8', 'fortran_order': False, 'shape': (4611686018427387904, 2), }"))
       ++ str "{'descr': '<f8', 'fortran_order': False, 'shape': (4611686018427387904, 2), }"
       ++ [])
  = (Panic "makeslice: len out of range", []).
Proof.
  apply (Read_negative_count_panics TFloat64
           (str "{'descr': '<f8', 'fortran_order': False, 'shape': (4611686018427387904, 2), }")
           [] (header.mk (Some [4611686018427387904; 2]) Float64 false));
    [reflexivity|reflexivity|reflexivity].
Defined.

(** ** Reading at another element type *)

Lemma binary_Read_slice_as (t u : GoType) (data : list (goVal t)) (rest : bytes) :
  width u = width t ->
  binary_Read_slice u (length data) (concat (map (putLE t) data) ++ rest)
  = (Ok (map (fun v => getLE u (putLE t v)) data), rest).
Proof.
  intros Hw. unfold binary_Read_slice. rewrite Hw.
  rewrite (bind_ok _ _ _ _ _
             (ReadFull_app_n _ _ rest (length_concat_putLE t data))).
  unfold ret. f_equal. f_equal.
  rewrite <- (app_nil_r (concat _)), chunks_concat.
  rewrite map_map. reflexivity.
Qed.

(** Decoding, at an element type of the same width, the stream written for a
    well-formed array. *)
Lemma Read_stream_as (t u : GoType) (arr : Array.t (goVal t))
    (data : list (goVal t)) (shape : list Z) (rest : bytes) :
  Array.Data arr = Some data ->
  Array.Shape arr = Some shape ->
  In (Array.DType arr) dtypes ->
  Forall (fun d => 0 <= d < 2 ^ 63) shape ->
  len data = product shape ->
  len data < 2 ^ 63 ->
  len (padHeader (generateHeader arr)) < 2 ^ 16 ->
  width u = width t ->
  Read u (stream t arr ++ rest)
  = (Ok (Array.mk (Some (map (fun v => getLE u (putLE t v)) data)) (Some shape)
                  (Array.DType arr) (Array.Fortran arr)), rest).
Proof.
  intros Hd Hs Hdt Hshape Hlen Hint Hfit Hw.
  pose proof (len_nonneg data) as Hnn.
  assert (Htot : totalElements shape = len data).
  { rewrite totalElements_product; lia. }
  unfold stream. rewrite Hd. cbn [elems].
  set (p := padHeader (generateHeader arr)) in *.
  repeat rewrite <- app_assoc. unfold Read.
  rewrite (bind_ok _ _ _ _ _ (wrapErr_ok _ _ _ _ _ (ReadFull_app_n 6 magic _ eq_refl))).
  rewrite bytes_eqb_refl. cbn [negb].
  rewrite (bind_ok _ _ _ _ _ (readHeaderLen_v1 _ _ 0 (uint16 (len p)) _)).
  assert (E : uint16 (len p) mod 2 ^ 16 = len p).
  { unfold uint16. rewrite Z.mod_mod by lia. apply Z.mod_small.
    pose proof (len_nonneg p). lia. }
  rewrite E.
  assert (Hp : length p = Z.to_nat (len p)) by (unfold len; lia).
  rewrite (bind_ok _ _ _ _ _ (wrapErr_ok _ _ _ _ _ (ReadFull_app_n _ p _ Hp))).
  assert (Hh : parseHeader p
               = Ok (header.mk (Some shape) (Array.DType arr) (Array.Fortran arr))).
  { apply parseHeader_padHeader; assumption. }
  assert (Hl : wrapErr "failed to parse header" (lift (parseHeader p))
                 (concat (map (putLE t) data) ++ rest)
               = (Ok (header.mk (Some shape) (Array.DType arr) (Array.Fortran arr)),
                  concat (map (putLE t) data) ++ rest)).
  { unfold wrapErr, lift. rewrite Hh. reflexivity. }
  rewrite (bind_ok _ _ _ _ _ Hl).
  assert (Hr : readData u (header.mk (Some shape) (Array.DType arr) (Array.Fortran arr))
                 (concat (map (putLE t) data) ++ rest)
               = (Ok (map (fun v => getLE u (putLE t v)) data), rest)).
  { unfold readData. cbn [header.Shape elems]. rewrite Htot.
    destruct (len data <? 0) eqn:E0; [lia|].
    apply wrapErr_ok.
    replace (Z.to_nat (len data)) with (length data) by (unfold len; lia).
    apply binary_Read_slice_as, Hw. }
  rewrite (bind_ok _ _ _ _ _ (wrapErr_ok _ _ _ _ _ Hr)).
  reflexivity.
Qed.

(** X11. [Read] does not compare its element type with the dtype of the
    header.  Reading the stream of a well-formed array at another element type
    of the same width succeeds: the array returned keeps the shape, the layout
    and the dtype recorded in the header, and each element is the written
    bytes of the original element read at the requested type (for [float32],
    with a signalling NaN made quiet). *)
Theorem Read_other_type (t u : GoType) (arr : Array.t (goVal t))
    (data : list (goVal t)) (shape : list Z) (rest : bytes) :
  Array.Data arr = Some data ->
  Array.Shape arr = Some shape ->
  In (Array.DType arr) dtypes ->
  Forall (fun d => 0 <= d < 2 ^ 63) shape ->
  len data = product shape ->
  len data < 2 ^ 63 ->
  len (padHeader (generateHeader arr)) < 2 ^ 16 ->
  width u = width t ->
  Read u (stream t arr ++ rest)
  = (Ok (Array.mk (Some (map (fun v => getLE u (putLE t v)) data)) (Some shape)
                  (Array.DType arr) (Array.Fortran arr)), rest).
Proof. apply Read_stream_as. Qed.

Lemma Read_other_type_witness :
  Read TUint32 (stream TInt32 array2 ++ [])
  = (Ok (Array.mk (Some [5; 6; 7; 8; 9]) (Some [5]) Int32 false), []) /\
  Read TFloat32 (stream TInt32 snanInts ++ [])
  = (Ok (Array.mk (Some [qnan32]) (Some [1]) Int32 false), []).
Proof.
  split.
  - apply (Read_other_type TInt32 TUint32 array2 [5; 6; 7; 8; 9] [5] []);
      try reflexivity.
    + simpl. tauto.
    + repeat constructor; lia.
  - apply (Read_other_type TInt32 TFloat32 snanInts [snan32] [1] []);
      try reflexivity.
    + simpl. tauto.
    + repeat constructor; lia.
Defined.

(** ** What [ReadNPZFile] returns *)

Lemma readAs_inv (t : GoType) (msg : string) (rc : bytes) (a : anyArray) :
  readAs t msg rc = Ok a ->
  exists arr r, a = AnyArray t (Some arr) /\ Read t rc = (Ok arr, r).
Proof.
  unfold readAs. destruct (Read t rc) as [[arr|e|m] r]; try discriminate.
  intros [= <-]. eauto.
Qed.

Lemma readMember_inv (f : zipFile) (a : anyArray) :
  readMember f = Ok a ->
  exists t arr r,
    a = AnyArray t (Some arr) /\ Read t (content f) = (Ok arr, r) /\
    Array.DType arr = dtypeName t.
Proof.
  unfold readMember.
  destruct (peekHeader (content f)) as [[hdr|e|m] s'] eqn:Ep; try discriminate.
  cbn [fst]. intros H.
  assert (G : forall t msg, header.DType hdr = dtypeName t ->
              readAs t msg (content f) = Ok a ->
              exists t arr r,
                a = AnyArray t (Some arr) /\ Read t (content f) = (Ok arr, r) /\
                Array.DType arr = dtypeName t).
  { intros t msg Hd Ha. apply readAs_inv in Ha. destruct Ha as (arr & r & -> & HR).
    exists t, arr, r. split; [reflexivity|]. split; [exact HR|].
    apply Read_ok_inv in HR. destruct HR as (hb & hdr' & r' & data & _ & Hp' & -> & _).
    rewrite Ep in Hp'. injection Hp' as <- _. exact Hd. }
  repeat match type of H with
         | (if String.eqb ?d ?x then _ else _) = _ =>
             let E := fresh in
             destruct (String.eqb d x) eqn:E;
             [apply String.eqb_eq in E; eapply G; [|exact H]; exact E|]
         end.
  discriminate.
Qed.

Lemma readMember_wellTyped (f : zipFile) (a : anyArray) :
  readMember f = Ok a -> wellTyped a.
Proof.
  intros H. apply readMember_inv in H. destruct H as (t & arr & r & -> & HR & Hd).
  apply Read_ok_inv in HR. destruct HR as (hb & hdr & r' & data & Hp & _ & -> & _ & Hl).
  destruct (parseHeader_shape _ _ Hp) as (shape & Hs & Hnn).
  rewrite Hs in *. cbn [elems] in Hl.
  exists (Array.mk (Some data) (Some shape) (header.DType hdr) (header.Fortran hdr)),
         data, shape.
  repeat split; try reflexivity; assumption.
Qed.

Lemma readMembers_inv (files : list zipFile) :
  forall npz0 npz, readMembers files npz0 = Ok npz ->
  forall name a, arrays npz !! name = Some a ->
    arrays npz0 !! name = Some a \/
    exists f, In f files /\ IsDir f = false /\
              TrimSuffix (Name f) ".npy" = name /\ readMember f = Ok a.
Proof.
  induction files as [|f files IH]; intros npz0 npz H name a Ha.
  - simpl in H. injection H as <-. left. exact Ha.
  - cbn [readMembers] in H. destruct (IsDir f) eqn:Edir.
    + destruct (IH _ _ H _ _ Ha) as [Hl|(g & Hg & Hr)]; [left; exact Hl|].
      right. exists g. split; [right; exact Hg|exact Hr].
    + destruct (readMember f) as [b|e|m] eqn:Em; try discriminate.
      destruct (IH _ _ H _ _ Ha) as [Hl|(g & Hg & Hr)].
      * cbn [arrays] in Hl. rewrite lookup_insert in Hl.
        destruct (decide (TrimSuffix (Name f) ".npy" = name)) as [En|En].
        -- injection Hl as <-. right. exists f.
           split; [left; reflexivity|]. auto.
        -- left. exact Hl.
      * right. exists g. split; [right; exact Hg|exact Hr].
Qed.

(** X12. Every entry of a container that [ReadNPZFile] returns comes from a
    member of the archive that is not a directory, under the name of the
    member without its [.npy] suffix, and is well typed: it holds an array
    (not a nil pointer) with non-nil data of as many elements as its shape
    declares, non-negative dimensions, and the dtype of the element type it is
    stored at.  So [Get] finds it at that element type. *)
Theorem ReadNPZFile_entries (path : string) (files : list zipFile) (npz : NPZFile)
    (name : string) (a : anyArray) :
  ReadNPZFile path files = Ok npz ->
  arrays npz !! name = Some a ->
  wellTyped a /\
  (exists f, In f files /\ IsDir f = false /\
             TrimSuffix (Name f) ".npy" = name /\ readMember f = Ok a) /\
  (exists t arr, a = AnyArray t (Some arr) /\ Get t npz name = (Some arr, true)).
Proof.
  unfold ReadNPZFile. destruct (negb (HasSuffix path ".npz")); [discriminate|].
  intros H Ha.
  destruct (readMembers_inv _ _ _ H _ _ Ha) as [Hl|(f & Hf & Hd & Hn & Hr)].
  { cbn in Hl. rewrite lookup_empty in Hl. discriminate. }
  pose proof (readMember_wellTyped _ _ Hr) as Hw.
  split; [exact Hw|]. split; [eauto 6|].
  destruct a as [t p]. destruct Hw as (arr & data & shape & -> & _).
  exists t, arr. split; [reflexivity|].
  unfold Get. rewrite Ha, GoType_eq_dec_refl. reflexivity.
Qed.

Lemma ReadNPZFile_entries_witness :
  wellTyped (AnyArray TInt32 (Some array2)).
Proof.
  apply (ReadNPZFile_entries "x.npz" [mkZip "d/" true []; mkZip "array2.npy" false (stream TInt32 array2)]
           (mkNPZ {["array2" := AnyArray TInt32 (Some array2)]}) "array2");
    reflexivity.
Defined.

(** ** Round trip of a container *)

Lemma str_append (a b : string) : str (a ++ b) = str a ++ str b.
Proof.
  unfold str. induction a as [|c a IH]; simpl; [reflexivity|].
  rewrite IH. reflexivity.
Qed.

Lemma stripPrefix_app (l r : bytes) : stripPrefix l (l ++ r) = Some r.
Proof.
  induction l as [|c l IH]; simpl; [reflexivity|].
  rewrite Ascii.eqb_refl. exact IH.
Qed.

Lemma HasSuffix_append (s suffix : string) : HasSuffix (s ++ suffix) suffix = true.
Proof.
  unfold HasSuffix. rewrite str_append, rev_app_distr, stripPrefix_app. reflexivity.
Qed.

Lemma TrimSuffix_append (s suffix : string) : TrimSuffix (s ++ suffix) suffix = s.
Proof.
  unfold TrimSuffix. rewrite str_append, rev_app_distr, stripPrefix_app.
  rewrite rev_involutive. apply string_of_list_ascii_of_string.
Qed.

Lemma writeMember_encodable (a : anyArray) :
  encodable a -> writeMember a = (Ok tt, content (memberOf (""%string, a))).
Proof.
  destruct a as [t p]. intros (arr & data & shape & -> & Hd & Hs & Hdt & Hsh & Hl & Hi & _).
  cbn [writeMember memberOf snd content].
  rewrite Write_cases, Hd, Hs.
  assert (In (Array.DType arr) dtypes) by (rewrite Hdt; destruct t; simpl; tauto).
  rewrite dtypes_nonempty by assumption.
  pose proof (len_nonneg data).
  rewrite totalElements_product by lia. rewrite Hl, Z.eqb_refl. reflexivity.
Qed.

Lemma readMember_encodable (name : string) (a : anyArray) :
  encodable a -> readMember (memberOf (name, a)) = Ok (readBack a).
Proof.
  destruct a as [t p].
  intros (arr & data & shape & -> & Hd & Hs & Hdt & Hsh & Hl & Hi & Hr & Hfit).
  assert (Hin : In (Array.DType arr) dtypes) by (rewrite Hdt; destruct t; simpl; tauto).
  pose proof (Read_stream_as t t arr data shape [] Hd Hs Hin Hsh Hl Hi Hfit eq_refl) as HR.
  rewrite app_nil_r in HR.
  pose proof (Read_ok_inv _ _ _ _ HR) as (hb & hdr & r' & data' & _ & Hp & Ha & _).
  unfold readMember, memberOf. cbn [fst snd content]. rewrite Hp. cbn [fst].
  assert (Hhd : header.DType hdr = dtypeName t).
  { rewrite <- Hdt. injection Ha as _ _ Ha _. symmetry. exact Ha. }
  rewrite Hhd. unfold readAs, readBack. rewrite Hd, Hs. cbn [option_map].
  destruct t; cbn [dtypeName]; simpl String.eqb; cbv iota; rewrite HR; reflexivity.
Qed.

Lemma readBack_quiet (a : anyArray) :
  encodable a -> quietData a -> readBack a = a.
Proof.
  destruct a as [t p].
  intros (arr & data & shape & -> & Hd & Hs & Hdt & Hsh & Hl & Hi & Hr & Hfit) Hq.
  cbn [quietData readBack] in *. rewrite Hd in *. cbn [elems option_map] in *.
  rewrite map_getLE_putLE by assumption.
  destruct arr. simpl in *. subst. reflexivity.
Qed.

Lemma TrimSuffix_memberName (name : string) :
  TrimSuffix (memberName name) ".npy" = TrimSuffix name ".npy".
Proof.
  unfold memberName. destruct (HasSuffix name ".npy") eqn:E; [reflexivity|].
  rewrite TrimSuffix_append. unfold HasSuffix in E. unfold TrimSuffix.
  destruct (stripPrefix _ _); [discriminate|reflexivity].
Qed.

Lemma TrimSuffix_no_suffix (name : string) :
  HasSuffix name ".npy" = false -> TrimSuffix name ".npy" = name.
Proof.
  unfold HasSuffix, TrimSuffix.
  destruct (stripPrefix _ _); [discriminate|reflexivity].
Qed.

Lemma writeMembers_encodable (entries : list (string * anyArray)) :
  Forall (fun e => encodable (snd e)) entries ->
  forall zip, writeMembers entries zip = (Ok tt, zip ++ map memberOf entries).
Proof.
  induction 1 as [|[name a] entries Ha _ IH]; intros zip.
  - simpl. rewrite app_nil_r. reflexivity.
  - cbn [writeMembers map]. cbn [snd] in Ha.
    rewrite (writeMember_encodable a Ha). rewrite IH, <- app_assoc.
    reflexivity.
Qed.

Lemma readMembers_encodable (entries : list (string * anyArray)) :
  Forall (fun e => encodable (snd e)) entries ->
  forall npz0,
    readMembers (map memberOf entries) npz0
    = Ok (mkNPZ (fold_left
                   (fun m e => <[TrimSuffix (fst e) ".npy" := readBack (snd e)]> m)
                   entries (arrays npz0))).
Proof.
  induction 1 as [|[name a] entries Ha _ IH]; intros npz0.
  - simpl. destruct npz0. reflexivity.
  - cbn [map readMembers fold_left].
    change (IsDir (memberOf (name, a))) with false. cbv iota.
    change (Name (memberOf (name, a))) with (memberName name).
    rewrite TrimSuffix_memberName, (readMember_encodable name a Ha). rewrite IH.
    reflexivity.
Qed.

Lemma fold_left_readBack_quiet (entries : list (string * anyArray))
    (f : string -> string) (m : gmap string anyArray) :
  Forall (fun e => encodable (snd e) /\ quietData (snd e)) entries ->
  fold_left (fun m e => <[f (fst e) := readBack (snd e)]> m) entries m
  = fold_left (fun m e => <[f (fst e) := snd e]> m) entries m.
Proof.
  intros H. revert m. induction H as [|e entries [He Hq] _ IH]; intros m; [reflexivity|].
  cbn [fold_left]. rewrite (readBack_quiet _ He Hq). apply IH.
Qed.

Lemma fold_left_trim_no_suffix (entries : list (string * anyArray))
    (m : gmap string anyArray) :
  Forall (fun e => HasSuffix (fst e) ".npy" = false) entries ->
  fold_left (fun m e => <[TrimSuffix (fst e) ".npy" := snd e]> m) entries m
  = fold_left (fun m e => <[fst e := snd e]> m) entries m.
Proof.
  intros H. revert m. induction H as [|e entries He _ IH]; intros m; [reflexivity|].
  cbn [fold_left]. rewrite (TrimSuffix_no_suffix _ He). apply IH.
Qed.

Lemma fold_left_insert_fresh {A} (l : list (string * A)) (k : string) (a : A)
    (m : gmap string A) :
  k ∉ l.*1 ->
  fold_left (fun m e => <[fst e := snd e]> m) l (<[k := a]> m)
  = <[k := a]> (fold_left (fun m e => <[fst e := snd e]> m) l m).
Proof.
  revert m. induction l as [|[k' a'] l IH]; intros m Hk; [reflexivity|].
  cbn [fold_left fst snd]. rewrite fmap_cons, not_elem_of_cons in Hk.
  destruct Hk as [Hne Hk]. cbn [fst] in Hne.
  rewrite insert_insert_ne by congruence. apply IH, Hk.
Qed.

Lemma fold_left_insert_list_to_map {A} (l : list (string * A)) :
  NoDup l.*1 ->
  fold_left (fun (m : gmap string A) e => <[fst e := snd e]> m) l ∅ = list_to_map l.
Proof.
  induction l as [|[k a] l IH]; intros Hnd; [reflexivity|].
  rewrite fmap_cons, NoDup_cons in Hnd. destruct Hnd as [Hk Hnd].
  cbn [fold_left fst snd list_to_map foldr]. 
  rewrite fold_left_insert_fresh by exact Hk. rewrite IH by exact Hnd. reflexivity.
Qed.

(** X13. Round trip of a container.  When no name of the container ends in
    [.npy] and every entry holds a well-formed array without a [float32]
    signalling NaN, stored at the element type of its dtype, then, whatever
    the order in which the map is iterated, [WriteNPZFile] succeeds and
    creates one member per entry, named by the entry with [.npy] appended, and
    [ReadNPZFile] of the archive written returns the same container. *)
Theorem NPZ_roundtrip (path : string) (npz : NPZFile)
    (order : list (string * anyArray)) :
  order ≡ₚ map_to_list (arrays npz) ->
  (forall name a, arrays npz !! name = Some a ->
     HasSuffix name ".npy" = false /\ encodable a /\ quietData a) ->
  let path' := if HasSuffix path ".npz" then path else (path ++ ".npz")%string in
  writeMembers order [] = (Ok tt, map memberOf order) /\
  ReadNPZFile path' (map memberOf order) = Ok npz /\
  WriteNPZFile path npz = (Ok tt, (path', map memberOf (map_to_list (arrays npz)))).
Proof.
  intros Hperm Hgood path'.
  assert (Hall : forall l, l ≡ₚ map_to_list (arrays npz) ->
            Forall (fun e => encodable (snd e)) l /\
            Forall (fun e => HasSuffix (fst e) ".npy" = false) l).
  { intros l Hl. split; apply Forall_forall; intros [name a] Hin;
      rewrite Hl in Hin; apply elem_of_map_to_list in Hin; apply (Hgood _ _ Hin). }
  assert (Hquiet : Forall (fun e => encodable (snd e) /\ quietData (snd e)) order).
  { apply Forall_forall. intros [name a] Hin.
    rewrite Hperm in Hin. apply elem_of_map_to_list in Hin. apply (Hgood _ _ Hin). }
  assert (Hsfx : HasSuffix path' ".npz" = true).
  { unfold path'. destruct (HasSuffix path ".npz") eqn:E; [exact E|].
    apply HasSuffix_append. }
  split; [|split].
  - rewrite (writeMembers_encodable order (proj1 (Hall _ Hperm))). reflexivity.
  - unfold ReadNPZFile. rewrite Hsfx. cbn [negb].
    rewrite readMembers_encodable by apply (Hall _ Hperm).
    rewrite (fold_left_readBack_quiet order (fun n => TrimSuffix n ".npy"))
      by exact Hquiet.
    rewrite fold_left_trim_no_suffix by apply (Hall _ Hperm).
    + cbn [NewNPZFile arrays].
      assert (Hnd : NoDup order.*1).
      { rewrite Hperm. apply NoDup_fst_map_to_list. }
      rewrite (fold_left_insert_list_to_map order Hnd).
      rewrite <- (list_to_map_flip (arrays npz) order) by (symmetry; exact Hperm).
      destruct npz. reflexivity.
  - unfold WriteNPZFile. fold path'.
    rewrite (writeMembers_encodable _ (proj1 (Hall _ (reflexivity _)))). reflexivity.
Qed.

Lemma NPZ_roundtrip_witness :
  ReadNPZFile "data.npz" (map memberOf (map_to_list (arrays npzDemo))) = Ok npzDemo.
Proof.
  apply (NPZ_roundtrip "data" npzDemo (map_to_list (arrays npzDemo))); [reflexivity|].
  intros name a H. unfold npzDemo, Add, NewNPZFile in H. cbn [arrays] in H.
  apply lookup_insert_Some in H. destruct H as [[<- <-]|[_ H]].
  { split; [reflexivity|]. split; [|repeat constructor].
    exists array2, [5; 6; 7; 8; 9], [5].
    repeat split; try reflexivity; repeat constructor; simpl; lia. }
  apply lookup_insert_Some in H. destruct H as [[<- <-]|[_ H]].
  { split; [reflexivity|]. split; [|repeat constructor].
    exists array1, [4607182418800017408; 4611686018427387904;
                    4613937818241073152; 4616189618054758400], [2; 2].
    repeat split; try reflexivity; repeat constructor; simpl; lia. }
  rewrite lookup_empty in H. discriminate.
Defined.

Lemma fold_left_insert_keys {A B} (f : string -> string) (g : A -> B)
    (l : list (string * A)) (m0 : gmap string B) (k : string) :
  is_Some (fold_left (fun m e => <[f (fst e) := g (snd e)]> m) l m0 !! k) <->
  is_Some (m0 !! k) \/ exists e, e ∈ l /\ k = f (fst e).
Proof.
  revert m0. induction l as [|e l IH]; intros m0.
  - simpl. split; [auto|]. intros [H|(e & He & _)]; [exact H|].
    apply elem_of_nil in He. contradiction.
  - cbn [fold_left]. rewrite IH. rewrite lookup_insert_is_Some'. split.
    + intros [[E|H]|(e' & He' & ->)].
      * right. exists e. split; [left|symmetry; exact E].
      * left. exact H.
      * right. exists e'. split; [right; exact He'|reflexivity].
    + intros [H|(e' & He' & ->)]; [left; right; exact H|].
      apply elem_of_cons in He'. destruct He' as [->|He'].
      * left. left. reflexivity.
      * right. exists e'. split; [exact He'|reflexivity].
Qed.

(** X14. The round trip of a container renames its entries.  When every
    entry holds an array that the codec carries over, [WriteNPZFile] succeeds
    for any name, and the container read back has an entry exactly under the
    names of the original with a [.npy] suffix removed: a name that ends in
    [.npy] comes back without it, and the names [a] and [a.npy] come back as
    the one entry [a]. *)
Theorem NPZ_roundtrip_names (path : string) (npz : NPZFile)
    (order : list (string * anyArray)) :
  order ≡ₚ map_to_list (arrays npz) ->
  (forall name a, arrays npz !! name = Some a -> encodable a) ->
  HasSuffix path ".npz" = true ->
  exists npz',
    writeMembers order [] = (Ok tt, map memberOf order) /\
    ReadNPZFile path (map memberOf order) = Ok npz' /\
    forall k, is_Some (arrays npz' !! k) <->
              exists name, is_Some (arrays npz !! name) /\ k = TrimSuffix name ".npy".
Proof.
  intros Hperm Hgood Hsfx.
  assert (Hall : Forall (fun e => encodable (snd e)) order).
  { apply Forall_forall. intros [name a] Hin.
    rewrite Hperm in Hin. apply elem_of_map_to_list in Hin. apply (Hgood _ _ Hin). }
  eexists. split; [|split].
  - rewrite (writeMembers_encodable order Hall). reflexivity.
  - unfold ReadNPZFile. rewrite Hsfx. cbn [negb].
    rewrite readMembers_encodable by exact Hall. reflexivity.
  - intros k. cbn [arrays NewNPZFile].
    rewrite (fold_left_insert_keys (fun n => TrimSuffix n ".npy") readBack).
    rewrite lookup_empty. split.
    + intros [H|([name a] & He & ->)]; [destruct H; discriminate|].
      rewrite Hperm in He. apply elem_of_map_to_list in He.
      exists name. split; [eauto|reflexivity].
    + intros (name & [a Ha] & ->). right. exists (name, a).
      split; [|reflexivity]. rewrite Hperm. apply elem_of_map_to_list, Ha.
Qed.

Lemma NPZ_roundtrip_names_witness :
  exists npz',
    ReadNPZFile "x.npz"
      (map memberOf (map_to_list (arrays (Add TInt32 NewNPZFile "a.npy" (Some array2)))))
    = Ok npz' /\
    is_Some (arrays npz' !! "a").
Proof.
  destruct (NPZ_roundtrip_names "x.npz" (Add TInt32 NewNPZFile "a.npy" (Some array2))
              (map_to_list (arrays (Add TInt32 NewNPZFile "a.npy" (Some array2)))))
    as (npz' & _ & HR & Hk).
  - reflexivity.
  - intros name a H. cbn [Add NewNPZFile arrays] in H.
    apply lookup_insert_Some in H. destruct H as [[<- <-]|[_ H]].
    + exists array2, [5; 6; 7; 8; 9], [5].
      repeat split; try reflexivity; repeat constructor; simpl; lia.
    + rewrite lookup_empty in H. discriminate.
  - reflexivity.
  - exists npz'. split; [exact HR|].
    apply Hk. exists "a.npy"%string. split; [|reflexivity].
    cbn [Add NewNPZFile arrays]. rewrite lookup_insert_eq. eauto.
Defined.

(** ** Failures of [WriteNPZFile] *)

(** X15. [WriteNPZFile] stops at the first entry whose array [Write]
    rejects: it returns the error of [Write], wrapped, and the archive is left
    with the members of the entries before it, an empty member for the
    rejected entry, and no member for the entries after it. *)
Theorem WriteNPZFile_stops (before after : list (string * anyArray))
    (name : string) (t : GoType) (arr : Array.t (goVal t)) (e : error) :
  Forall (fun e => encodable (snd e)) before ->
  fst (Write t arr []) = Err e ->
  writeMembers (before ++ (name, AnyArray t (Some arr)) :: after) []
  = (Err (Wrapf (writeMsg t) e),
     map memberOf before ++ [mkZip (memberName name) false []]).
Proof.
  intros Hb He.
  assert (HW : Write t arr [] = (Err e, [])).
  { pose proof (Write_cases t arr []) as Hc. rewrite Hc in He |- *.
    destruct (Array.Data arr); [|simpl in *; congruence].
    destruct (Array.Shape arr); [|simpl in *; congruence].
    destruct (String.eqb _ _); [simpl in *; congruence|].
    destruct (_ =? _); [discriminate|simpl in *; congruence]. }
  assert (G : forall zip,
            writeMembers (before ++ (name, AnyArray t (Some arr)) :: after) zip
            = (Err (Wrapf (writeMsg t) e),
               (zip ++ map memberOf before) ++ [mkZip (memberName name) false []])).
  { induction Hb as [|[n a] before Ha _ IH]; intros zip.
    - cbn [app writeMembers writeMember map]. rewrite HW, app_nil_r. reflexivity.
    - cbn [app writeMembers map]. cbn [snd] in Ha.
      rewrite (writeMember_encodable a Ha), IH.
      repeat rewrite <- app_assoc. reflexivity. }
  apply (G []).
Qed.

Lemma WriteNPZFile_stops_witness :
  writeMembers ([("array2"%string, AnyArray TInt32 (Some array2))]
                  ++ ("bad"%string, AnyArray TFloat64 (Some nilData)) :: []) []
  = (Err (Wrapf (writeMsg TFloat64) (Errorf "array data is nil")),
     map memberOf [("array2"%string, AnyArray TInt32 (Some array2))]
       ++ [mkZip (memberName "bad") false []]).
Proof.
  apply (WriteNPZFile_stops [("array2"%string, AnyArray TInt32 (Some array2))] []
           "bad" TFloat64 nilData); [|reflexivity].
  constructor; [|constructor].
  exists array2, [5; 6; 7; 8; 9], [5].
  repeat split; try reflexivity; repeat constructor; simpl; lia.
Defined.

(** ** Files *)

(** X16. Round trip through a file.  [WriteFile] writes a well-formed array
    to the path with [.npy] appended when the path does not end in it, and
    leaves every other file as it was; [ReadFile] of that path returns the
    array, provided that it holds no [float32] signalling NaN.  [ReadFile] of
    a path that does not end in [.npy] fails, also when that is the path given
    to [WriteFile]. *)
Theorem WriteFile_ReadFile (t : GoType) (path : string) (arr : Array.t (goVal t))
    (data : list (goVal t)) (shape : list Z) (fs : gmap string bytes) :
  Array.Data arr = Some data ->
  Array.Shape arr = Some shape ->
  In (Array.DType arr) dtypes ->
  Forall (fun d => 0 <= d < 2 ^ 63) shape ->
  len data = product shape ->
  len data < 2 ^ 63 ->
  Forall (inRange t) data ->
  Forall (fun v => signalling t v = false) data ->
  len (padHeader (generateHeader arr)) < 2 ^ 16 ->
  let path' := if HasSuffix path ".npy" then path else (path ++ ".npy")%string in
  let fs' := <[path' := stream t arr]> fs in
  WriteFile t path arr fs = (Ok tt, fs') /\
  ReadFile t path' fs' = (Ok arr, fs') /\
  (HasSuffix path ".npy" = false ->
   ReadFile t path fs' = (Err (Errorf "expected .npy file extension"), fs')).
Proof.
  intros Hd Hs Hdt Hsh Hl Hi Hr Hq Hfit path' fs'.
  pose proof (len_nonneg data) as Hnn.
  assert (HW : Write t arr [] = (Ok tt, stream t arr)).
  { rewrite Write_cases, Hd, Hs, (dtypes_nonempty _ Hdt).
    rewrite totalElements_product by lia. rewrite Hl, Z.eqb_refl. reflexivity. }
  assert (HR : Read t (stream t arr) = (Ok arr, [])).
  { pose proof (Read_stream_as t t arr data shape [] Hd Hs Hdt Hsh Hl Hi Hfit eq_refl) as H.
    rewrite app_nil_r in H. rewrite H. f_equal. f_equal.
    rewrite map_getLE_putLE by assumption.
    destruct arr. simpl in *. subst. reflexivity. }
  assert (Hsfx : HasSuffix path' ".npy" = true).
  { unfold path'. destruct (HasSuffix path ".npy") eqn:E; [exact E|].
    apply HasSuffix_append. }
  split; [|split].
  - unfold WriteFile. fold path'. rewrite HW. reflexivity.
  - unfold ReadFile. rewrite Hsfx. cbn [negb]. unfold fs'.
    rewrite lookup_insert_eq, HR. reflexivity.
  - intros E. unfold ReadFile. rewrite E. reflexivity.
Qed.

Lemma WriteFile_ReadFile_witness :
  ReadFile TInt32 "vector.npy" (<["vector.npy"%string := stream TInt32 array2]> ∅)
  = (Ok array2, <["vector.npy"%string := stream TInt32 array2]> ∅).
Proof.
  apply (WriteFile_ReadFile TInt32 "vector" array2 [5; 6; 7; 8; 9] [5] ∅);
    try reflexivity.
  - simpl. tauto.
  - repeat constructor; lia.
  - repeat constructor; simpl; lia.
  - repeat constructor.
Defined.

(** X17. A [WriteFile] that fails has already created the file: when
    [Write] rejects the array, the file at the path (with [.npy] appended when
    missing) is left empty, whatever it held before. *)
Theorem WriteFile_failure_truncates (t : GoType) (path : string)
    (arr : Array.t (goVal t)) (fs : gmap string bytes) (e : error) :
  fst (Write t arr []) = Err e ->
  let path' := if HasSuffix path ".npy" then path else (path ++ ".npy")%string in
  WriteFile t path arr fs = (Err e, <[path' := []]> fs) /\
  snd (WriteFile t path arr fs) !! path' = Some [].
Proof.
  intros He path'.
  assert (HW : Write t arr [] = (Err e, [])).
  { pose proof (Write_cases t arr []) as Hc. rewrite Hc in He |- *.
    destruct (Array.Data arr); [|simpl in *; congruence].
    destruct (Array.Shape arr); [|simpl in *; congruence].
    destruct (String.eqb _ _); [simpl in *; congruence|].
    destruct (_ =? _); [discriminate|simpl in *; congruence]. }
  unfold WriteFile. fold path'. rewrite HW. split; [reflexivity|].
  cbn [snd]. apply lookup_insert_eq.
Qed.

Lemma WriteFile_failure_truncates_witness :
  WriteFile TFloat64 "m.npy" nilData (<["m.npy"%string := stream TInt32 array2]> ∅)
  = (Err (Errorf "array data is nil"),
     <["m.npy"%string := []]> (<["m.npy"%string := stream TInt32 array2]> ∅)).
Proof.
  apply (WriteFile_failure_truncates TFloat64 "m.npy" nilData
           (<["m.npy"%string := stream TInt32 array2]> ∅)).
  reflexivity.
Defined.

(** ** [ToCsv] on an array with too little data *)

Section CsvShort.
Context {T : Type} (Sprint : T -> bytes).
Variables (arr : Array.t T) (R C : Z).
Let data := elems (Array.Data arr).
Let idx (r c : Z) : Z :=
  if Array.Fortran arr then int_add (int_mul c R) r else int_add (int_mul r C) c.



End CsvShort.



(** ** Negative dimensions *)

Lemma star_stop {R} (cls : ascii -> bool) (k : bytes -> bytes -> option R)
    (a : bytes) (c : ascii) (rest : bytes) :
  Forall (fun x => cls x = true) a -> cls c = false ->
  (forall acc p t, a = p ++ t -> k acc (t ++ c :: rest) = None) ->
  forall acc, star cls acc k (a ++ c :: rest) = None.
Proof.
  intros Ha Hc. induction Ha as [|x a Hx _ IH]; intros Hk acc.
  - cbn [app star]. rewrite Hc. apply (Hk acc [] []). reflexivity.
  - cbn [app star]. rewrite Hx. rewrite IH.
    + apply (Hk acc [] (x :: a)). reflexivity.
    + intros acc' p t ->. apply (Hk acc' (x :: p) t). reflexivity.
Qed.

Lemma matchAt_shapeRe_minus (a rest : bytes) :
  Forall (fun c => shapeCls c = true) a ->
  matchAt shapeRe (str "'shape': (" ++ a ++ "-"%char :: rest) = None.
Proof.
  intros Ha. unfold matchAt, shapeRe.
  cbn [run str list_ascii_of_string app stripPrefix Ascii.eqb Bool.eqb star].
  change (reSpace " ") with true. change (reSpace "(") with false. cbv iota.
  cbn [run str list_ascii_of_string app stripPrefix Ascii.eqb Bool.eqb star].
  rewrite star_stop; [reflexivity|exact Ha|reflexivity|].
  intros acc p t ->. apply Forall_app in Ha. destruct Ha as [_ Ht].
  destruct Ht as [|x t Hx _]; [reflexivity|].
  cbn [app stripPrefix].
  destruct x as [[] [] [] [] [] [] [] []]; solve [reflexivity | discriminate Hx].
Qed.

Lemma find_shapeRe_no_quote (s : bytes) :
  Forall (fun c => c <> "'"%char) s -> find shapeRe s = None.
Proof.
  induction 1 as [|c s Hc _ IH]; [reflexivity|].
  rewrite find_skip; [exact IH|].
  unfold matchAt, shapeRe. cbn [run str list_ascii_of_string stripPrefix].
  apply not_eq_sym, Ascii.eqb_neq in Hc. rewrite Hc. reflexivity.
Qed.

Lemma find_shape_header_minus (tok : bytes) (fortran : bool) (a b : bytes) :
  In tok tokens -> Forall (fun c => shapeCls c = true) a ->
  Forall (fun c => c <> "'"%char) b ->
  find shapeRe (headerText tok fortran (a ++ "-"%char :: b)) = None.
Proof.
  intros Ht Ha Hb. unfold headerText.
  assert (Htail : find shapeRe ((a ++ "-"%char :: b) ++ str "), }") = None).
  { apply find_shapeRe_no_quote. repeat (apply Forall_app; split).
    - eapply List.Forall_impl; [|exact Ha]. intros c Hc ->. discriminate.
    - constructor; [discriminate|exact Hb].
    - repeat constructor; discriminate. }
  pose proof (matchAt_shapeRe_minus a (b ++ str "), }") Ha) as Hm.
  rewrite <- app_assoc in Htail. cbn [app] in Htail.
  cbn [str list_ascii_of_string app] in Hm, Htail.
  simpl in Ht. decompose [or] Ht; try contradiction; subst tok; destruct fortran;
    cbn [str list_ascii_of_string app];
    repeat rewrite <- app_assoc; cbn [app];
    repeat (rewrite find_skip by reflexivity);
    (rewrite find_skip by exact Hm);
    repeat (rewrite find_skip by reflexivity);
    exact Htail.
Qed.

Lemma Itoa_negative (d : Z) : d < 0 -> exists b, Itoa d = "-"%char :: b.
Proof.
  intros H. destruct d as [|p|p]; try lia. unfold Itoa. simpl. eauto.
Qed.

Lemma Itoa_no_quote (d : Z) : Forall (fun c => c <> "'"%char) (Itoa d).
Proof.
  eapply List.Forall_impl; [|apply Itoa_chars].
  intros c [H| ->]; [intros ->|]; discriminate.
Qed.

Lemma tailText_no_quote (dims : list Z) : Forall (fun c => c <> "'"%char) (tailText dims).
Proof.
  unfold tailText. induction dims as [|d dims IH]; [constructor|].
  cbn [map concat]. apply Forall_app. split; [|exact IH].
  apply Forall_app. split; [repeat constructor; discriminate|apply Itoa_no_quote].
Qed.

(** The text of a shape with a negative dimension, cut at its first minus
    sign. *)
Lemma shapeInner_minus (shape : list Z) :
  Exists (fun d => d < 0) shape ->
  exists a b, shapeInner shape = a ++ "-"%char :: b /\
              Forall (fun c => shapeCls c = true) a /\
              Forall (fun c => c <> "'"%char) b.
Proof.
  intros H.
  assert (Htrail : forall l : list Z,
            Forall (fun c => c <> "'"%char)
                   (if (length l <=? 1)%nat then str "," else [])).
  { intros l. destruct (length l <=? 1)%nat; repeat constructor. discriminate. }
  assert (G : forall dims, Exists (fun d => d < 0) dims ->
            exists a b, tailText dims = a ++ "-"%char :: b /\
                        Forall (fun c => shapeCls c = true) a /\
                        Forall (fun c => c <> "'"%char) b).
  { induction dims as [|d dims IH]; intros He; [inversion He|].
    unfold tailText. cbn [map concat]. fold (tailText dims).
    destruct (Z.neg_nonneg_cases d) as [Hneg|Hpos].
    - destruct (Itoa_negative d Hneg) as [b Hb].
      exists (str ", "), (b ++ tailText dims). split.
      + rewrite Hb. repeat rewrite <- app_assoc. reflexivity.
      + split; [repeat constructor|].
        apply Forall_app. split; [|apply tailText_no_quote].
        pose proof (Itoa_no_quote d) as Hq. rewrite Hb in Hq.
        inversion Hq; assumption.
    - inversion He as [? ? Hd|? ? Hd]; subst; [lia|].
      destruct (IH Hd) as (a & b & E & Ha & Hb).
      exists (str ", " ++ Itoa d ++ a), b. split.
      + rewrite E. repeat rewrite <- app_assoc. reflexivity.
      + split; [|exact Hb].
        apply Forall_app. split; [repeat constructor|].
        apply Forall_app. split; [|exact Ha].
        eapply List.Forall_impl; [|apply (proj1 (Itoa_digits d Hpos))].
        apply isDigit_shapeCls. }
  unfold shapeInner. destruct shape as [|d dims]; [inversion H|]. cbn [dimsText].
  destruct (Z.neg_nonneg_cases d) as [Hneg|Hpos].
  - destruct (Itoa_negative d Hneg) as [b Hb].
    exists [], (b ++ tailText dims ++ (if (length (d :: dims) <=? 1)%nat then str "," else [])).
    split; [rewrite Hb; repeat rewrite <- app_assoc; reflexivity|].
    split; [constructor|].
    apply Forall_app. split.
    + pose proof (Itoa_no_quote d) as Hq. rewrite Hb in Hq. inversion Hq; assumption.
    + apply Forall_app. split; [apply tailText_no_quote|apply Htrail].
  - inversion H as [? ? Hd|? ? Hd]; subst; [lia|].
    destruct (G dims Hd) as (a & b & E & Ha & Hb).
    exists (Itoa d ++ a), (b ++ (if (length (d :: dims) <=? 1)%nat then str "," else [])).
    split; [rewrite E; repeat rewrite <- app_assoc; reflexivity|].
    split.
    + apply Forall_app. split; [|exact Ha].
      eapply List.Forall_impl; [|apply (proj1 (Itoa_digits d Hpos))].
      apply isDigit_shapeCls.
    + apply Forall_app. split; [exact Hb|apply Htrail].
Qed.

(** X19. [Write] does not check the sign of the dimensions, [Read] accepts
    none that is negative: an array whose shape holds a negative dimension and
    whose data has the number of elements that [Write] computes (as a shape
    [[-1; -1]] with one element) is written without an error, and the stream
    written is rejected by [Read], for the shape is not found in its header. *)
Theorem Write_negative_dimension (t : GoType) (arr : Array.t (goVal t))
    (data : list (goVal t)) (shape : list Z) (rest : bytes) :
  Array.Data arr = Some data ->
  Array.Shape arr = Some shape ->
  Array.DType arr <> ""%string ->
  Exists (fun d => d < 0) shape ->
  len data = totalElements shape ->
  len (padHeader (generateHeader arr)) < 2 ^ 16 ->
  Write t arr [] = (Ok tt, stream t arr) /\
  fst (Read t (stream t arr ++ rest))
  = Err (Wrapf "failed to parse header" (Errorf "shape not found in header")).
Proof.
  intros Hd Hs Hdt Hneg Hl Hfit. split.
  - rewrite Write_cases, Hd, Hs. apply String.eqb_neq in Hdt. rewrite Hdt.
    rewrite Hl, Z.eqb_refl. reflexivity.
  - pose proof (generateHeader_no_newline arr) as Hnl.
    pose proof (dtypeStr_of_token (Array.DType arr)) as Htok.
    destruct (shapeInner_minus shape Hneg) as (a & b & Ein & Ha & Hb).
    assert (Hp : parseHeader (padHeader (generateHeader arr))
                 = Err (Errorf "shape not found in header")).
    { rewrite generateHeader_text, Hs in *. cbn [elems] in *.
      fold (headerText (dtypeStr_of (Array.DType arr)) (Array.Fortran arr)
                       (shapeInner shape)) in *.
      set (h := headerText _ _ _) in *.
      destruct (headerText_braces (dtypeStr_of (Array.DType arr)) (Array.Fortran arr)
                  (shapeInner shape)) as [body Hbody].
      fold h in Hbody.
      assert (Hdict : FindString dictRe (padHeader h) = h).
      { unfold FindString, padHeader, Repeat. rewrite Hbody.
        change (str "
") with ["010"%char].
        rewrite find_dict; [reflexivity|].
        rewrite Hbody in Hnl. inversion Hnl as [|? ? _ Hnl']. subst.
        apply Forall_app in Hnl'. apply Hnl'. }
      unfold parseHeader. rewrite Hdict.
      assert (Hne : bytes_eqb h [] = false) by (rewrite Hbody; reflexivity).
      rewrite Hne. unfold FindStringSubmatch at 1, h. rewrite Ein.
      rewrite find_shape_header_minus by assumption. reflexivity. }
    unfold stream. rewrite Hd. cbn [elems].
    set (p := padHeader (generateHeader arr)) in *.
    repeat rewrite <- app_assoc. unfold Read.
    rewrite (bind_ok _ _ _ _ _ (wrapErr_ok _ _ _ _ _ (ReadFull_app_n 6 magic _ eq_refl))).
    rewrite bytes_eqb_refl. cbn [negb].
    rewrite (bind_ok _ _ _ _ _ (readHeaderLen_v1 _ _ 0 (uint16 (len p)) _)).
    assert (E : uint16 (len p) mod 2 ^ 16 = len p).
    { unfold uint16. rewrite Z.mod_mod by lia. apply Z.mod_small.
      pose proof (len_nonneg p). lia. }
    rewrite E.
    assert (Hlp : length p = Z.to_nat (len p)) by (unfold len; lia).
    rewrite (bind_ok _ _ _ _ _ (wrapErr_ok _ _ _ _ _ (ReadFull_app_n _ p _ Hlp))).
    unfold bind at 1. unfold wrapErr at 1, lift. rewrite Hp. reflexivity.
Qed.

Lemma Write_negative_dimension_witness :
  fst (Read TInt32
         (stream TInt32 (Array.mk (Some [7]) (Some [-1; -1]) Int32 false) ++ []))
  = Err (Wrapf "failed to parse header" (Errorf "shape not found in header")).
Proof.
  apply (Write_negative_dimension TInt32
           (Array.mk (Some [7]) (Some [-1; -1]) Int32 false) [7] [-1; -1] []);
    try reflexivity.
  - discriminate.
  - left. lia.
Defined.

(** ** The byte-order mark of the dtype token *)

Lemma matchAt_lit_none (l : bytes) (r : regex) (s : bytes) :
  stripPrefix l s = None -> matchAt (Seq (Lit l) r) s = None.
Proof. intros H. unfold matchAt. cbn [run]. rewrite H. reflexivity. Qed.

Lemma matchAt_dtypeRe (tok rest : bytes) :
  Forall (fun c => notQuote c = true) tok ->
  matchAt dtypeRe (str "'descr': '" ++ tok ++ "'"%char :: rest)
  = Some (str "'descr': '" ++ tok ++ str "'", Some tok).
Proof.
  intros Ht. unfold matchAt, dtypeRe.
  cbn [run str list_ascii_of_string app stripPrefix Ascii.eqb Bool.eqb star].
  change (reSpace " ") with true. change (reSpace "'") with false. cbv iota.
  cbn [run str list_ascii_of_string app stripPrefix Ascii.eqb Bool.eqb star].
  erewrite star_greedy; [reflexivity|exact Ht|].
  cbn [app star]. change (notQuote "'") with false. cbv iota.
  cbn [stripPrefix Ascii.eqb Bool.eqb]. reflexivity.
Qed.

Lemma typeFor_codes (code : bytes) (d : DType) :
  typeFor code = Some d ->
  In (code, d)
     [(str "b1", Bool); (str "i1", Int8); (str "i2", Int16); (str "i4", Int32);
      (str "i8", Int64); (str "u1", Uint8); (str "u2", Uint16); (str "u4", Uint32);
      (str "u8", Uint64); (str "f4", Float32); (str "f8", Float64)].
Proof.
  intros H. unfold typeFor in H.
  repeat match type of H with
         | context [bytes_eqb code ?x] =>
             let E := fresh in
             destruct (bytes_eqb code x) eqn:E;
             [apply bytes_eqb_eq in E; injection H as <-; subst code; simpl; tauto|]
         end.
  discriminate.
Qed.

Section Marker.
Variable c : ascii.
Hypothesis Hq : Ascii.eqb "'" c = false.

Ltac lit_none :=
  apply matchAt_lit_none; cbn [str list_ascii_of_string stripPrefix];
  first [ reflexivity
        | rewrite Hq; reflexivity
        | match goal with |- context [Ascii.eqb ?x c] => destruct (Ascii.eqb x c) end;
          reflexivity ].

Lemma find_shape_marker (code : bytes) (d : DType) (fortran : bool) (inner : bytes) :
  typeFor code = Some d -> Forall (fun x => shapeCls x = true) inner ->
  find shapeRe (headerText (c :: code) fortran inner)
  = Some (str "'shape': (" ++ inner ++ str ")", Some inner).
Proof using Hq.
  intros Ht Hi. apply typeFor_codes in Ht. unfold headerText.
  simpl in Ht. decompose [or] Ht; try contradiction;
    match goal with E : (_, _) = (code, d) |- _ => injection E as <- <- end;
    destruct fortran; cbn [str list_ascii_of_string app];
    repeat (rewrite find_skip by (unfold shapeRe; lit_none));
    apply find_here; apply (matchAt_shapeRe inner (str ", }") Hi).
Qed.

Lemma find_dtype_marker (code : bytes) (d : DType) (fortran : bool) (inner : bytes) :
  typeFor code = Some d ->
  find dtypeRe (headerText (c :: code) fortran inner)
  = Some (str "'descr': '" ++ c :: code ++ str "'", Some (c :: code)).
Proof using Hq.
  intros Ht. apply typeFor_codes in Ht. unfold headerText.
  assert (Hn : notQuote c = true).
  { unfold notQuote. rewrite Ascii.eqb_sym, Hq. reflexivity. }
  simpl in Ht. decompose [or] Ht; try contradiction;
    match goal with E : (_, _) = (code, d) |- _ => injection E as <- <- end;
    destruct fortran; cbn [str list_ascii_of_string app];
    (rewrite find_skip by reflexivity); apply find_here;
    match goal with
    | |- matchAt dtypeRe (_ :: _ :: _ :: _ :: _ :: _ :: _ :: _ :: _ :: _ :: c :: ?x :: ?y :: "'"%char :: ?rest) = _ =>
        apply (matchAt_dtypeRe [c; x; y] rest)
    end; repeat constructor; exact Hn.
Qed.

Lemma find_fortran_marker (code : bytes) (d : DType) (fortran : bool) (inner : bytes) :
  typeFor code = Some d ->
  find fortranRe (headerText (c :: code) fortran inner)
  = Some (str "'fortran_order': " ++ (if fortran then str "True" else str "False"),
          Some (if fortran then str "True" else str "False")).
Proof using Hq.
  intros Ht. apply typeFor_codes in Ht. unfold headerText.
  simpl in Ht. decompose [or] Ht; try contradiction;
    match goal with E : (_, _) = (code, d) |- _ => injection E as <- <- end;
    destruct fortran; cbn [str list_ascii_of_string app];
    repeat (rewrite find_skip by (unfold fortranRe; lit_none));
    apply find_here; reflexivity.
Qed.
End Marker.

Lemma shapeInner_no_newline (shape : list Z) :
  Forall (fun c => anyButNL c = true) (shapeInner shape).
Proof.
  pose proof (generateHeader_no_newline
                (Array.mk (T := unit) None (Some shape) Float64 false)) as H.
  rewrite generateHeader_text in H. cbn [Array.Shape elems] in H.
  do 5 (apply Forall_app in H; destruct H as [_ H]).
  apply Forall_app in H. apply H.
Qed.

(** X20. [parseHeader] drops the first byte of the dtype token unread: a
    header that carries any byte-order mark [c] (other than a quote or a
    newline) before one of the eleven type codes decodes to the dtype of that
    code, with the shape and layout written. *)
Theorem parseHeader_ignores_byte_order (c : ascii) (code : bytes) (d : DType)
    (fortran : bool) (shape : list Z) :
  typeFor code = Some d ->
  c <> "'"%char -> c <> "010"%char ->
  Forall (fun d => 0 <= d < 2 ^ 63) shape ->
  parseHeader (padHeader (headerText (c :: code) fortran (shapeInner shape)))
  = Ok (header.mk (Some shape) d fortran).
Proof.
  intros Ht Hq Hnl Hshape.
  assert (Hq' : Ascii.eqb "'" c = false).
  { apply Ascii.eqb_neq. congruence. }
  assert (Hcls : Forall (fun c => shapeCls c = true) (shapeInner shape)).
  { apply shapeInner_cls. eapply List.Forall_impl; [|exact Hshape]. simpl. intros; lia. }
  set (h := headerText (c :: code) fortran (shapeInner shape)).
  destruct (headerText_braces (c :: code) fortran (shapeInner shape)) as [b Hb].
  fold h in Hb.
  assert (Hbody : Forall (fun x => anyButNL x = true) h).
  { unfold h, headerText.
    generalize (shapeInner shape) (shapeInner_no_newline shape). intros inner Hin.
    repeat (apply Forall_app; split); try (repeat constructor; fail).
    - constructor.
      + unfold anyButNL. apply Ascii.eqb_neq in Hnl. rewrite Hnl. reflexivity.
      + pose proof (typeFor_codes code d Ht) as Hc. simpl in Hc.
        decompose [or] Hc; try contradiction;
          match goal with E : (_, _) = (code, d) |- _ => injection E as <- <- end;
          repeat constructor.
    - destruct fortran; repeat constructor.
    - exact Hin. }
  assert (Hdict : FindString dictRe (padHeader h) = h).
  { unfold FindString, padHeader, Repeat. rewrite Hb.
    change (str "
") with ["010"%char].
    rewrite find_dict; [reflexivity|].
    rewrite Hb in Hbody. inversion Hbody as [|? ? _ Hbody']. subst.
    apply Forall_app in Hbody'. apply Hbody'. }
  unfold parseHeader. rewrite Hdict.
  assert (Hne : bytes_eqb h [] = false) by (rewrite Hb; reflexivity).
  rewrite Hne. unfold FindStringSubmatch, h.
  rewrite (find_shape_marker c Hq' code d fortran _ Ht Hcls).
  rewrite (find_dtype_marker c Hq' code d fortran _ Ht).
  rewrite (find_fortran_marker c Hq' code d fortran _ Ht).
  cbn [nth_error]. rewrite parseDims_shapeInner by assumption.
  assert (Hlen : (2 <=? len (c :: code)) = true).
  { pose proof (typeFor_codes code d Ht) as Hc. simpl in Hc.
    decompose [or] Hc; try contradiction;
      match goal with E : (_, _) = (code, d) |- _ => injection E as <- <- end;
      reflexivity. }
  rewrite Hlen. change (skipn 1 (c :: code)) with code. rewrite Ht. do 3 f_equal.
  destruct fortran; reflexivity.
Qed.

Lemma parseHeader_ignores_byte_order_witness :
  parseHeader (padHeader (headerText (str ">f8") true (shapeInner [2; 3])))
  = Ok (header.mk (Some [2; 3]) Float64 true).
Proof.
  apply (parseHeader_ignores_byte_order ">" (str "f8") Float64 true [2; 3]).
  - reflexivity.
  - discriminate.
  - discriminate.
  - repeat constructor; lia.
Defined.
